(** * ProxyPool: a shallow embedding of [src/ProxyPool.js]

    The development follows the class [ProxyPool] method by method.
    JavaScript values that cross a dynamic boundary (constructor options,
    HTTP response bodies, the value returned by the provider client) are
    kept as an untyped value type [JsVal]; the pool itself is a record
    threaded through every method.  The outside world (the listing
    service, the target service reached through a candidate, the wall
    clock) is a triple of oracles indexed by a tick counter. *)

From Stdlib Require Import ZArith List String Ascii Bool Lia Arith.
From Stdlib Require Import DecimalString Permutation.
Import ListNotations.

Local Open Scope string_scope.
Local Open Scope Z_scope.

(** ** JavaScript values *)

Module Js.

(** Numbers are the integers plus [NaN]; fractional numbers and the
    infinities do not occur in any value the pool inspects. *)
#[local] Unset Elimination Schemes.
Inductive JsVal : Type :=
| JUndefined
| JNull
| JBool (b : bool)
| JNum (z : Z)
| JNaN
| JStr (s : string)
| JArr (items : list JsVal)
| JObj (props : list (string * JsVal)).
#[local] Set Elimination Schemes.

(** [ToBoolean]: the falsy values are [undefined], [null], [false], [0],
    [NaN] and the empty string. *)
Definition truthy (v : JsVal) : bool :=
  match v with
  | JUndefined | JNull | JNaN => false
  | JBool b => b
  | JNum z => negb (z =? 0)
  | JStr s => negb (s =? "")%string
  | JArr _ | JObj _ => true
  end.

(** [a || b] and [a && b] return one of their operands. *)
Definition jsOr (a b : JsVal) : JsVal := if truthy a then a else b.
Definition jsAnd (a b : JsVal) : JsVal := if truthy a then b else a.

Fixpoint assoc (k : string) (props : list (string * JsVal)) : JsVal :=
  match props with
  | [] => JUndefined
  | (k', v) :: rest => if (k =? k')%string then v else assoc k rest
  end.

(** Property read [v.k].  Reading a property of [undefined] or [null]
    throws a TypeError ([None]); a missing property reads as [undefined];
    strings and arrays carry [length]. *)
Definition getProp (v : JsVal) (k : string) : option JsVal :=
  match v with
  | JUndefined | JNull => None
  | JObj props => Some (assoc k props)
  | JArr items =>
      Some (if (k =? "length")%string then JNum (Z.of_nat (List.length items))
            else JUndefined)
  | JStr s =>
      Some (if (k =? "length")%string then JNum (Z.of_nat (String.length s))
            else JUndefined)
  | JBool _ | JNum _ | JNaN => Some JUndefined
  end.

(** Whether converting [v] to a string, as a template literal does,
    throws.  A primitive always converts.  An object is converted through
    its [toString] and then its [valueOf]: an own [toString] key of a data
    object holds a value that cannot be called, and the inherited
    [valueOf] returns the object itself, so the conversion throws a
    TypeError; without that key the inherited [toString] answers.  An
    array joins the conversions of its elements. *)
Fixpoint toString_throws (v : JsVal) : bool :=
  match v with
  | JArr items => existsb toString_throws items
  | JObj props => existsb (fun kv => (fst kv =? "toString")%string) props
  | _ => false
  end.

(** [v === 200]-style comparison with a number literal. *)
Definition strictEqNum (v : JsVal) (n : Z) : bool :=
  match v with
  | JNum z => z =? n
  | _ => false
  end.

(** [v !== undefined]. *)
Definition notUndefined (v : JsVal) : bool :=
  match v with
  | JUndefined => false
  | _ => true
  end.

(** [s.includes(needle)]: [needle] occurs somewhere in [s]. *)
Fixpoint includes (s needle : string) : bool :=
  if String.prefix needle s then true
  else match s with
       | EmptyString => false
       | String _ rest => includes rest needle
       end.

(** [s.split(':')]: never empty; an empty string splits into [[""]]. *)
Fixpoint split_colon (s : string) : list string :=
  match s with
  | EmptyString => [EmptyString]
  | String c rest =>
      if Ascii.eqb c ":"%char then EmptyString :: split_colon rest
      else match split_colon rest with
           | [] => [String c EmptyString]
           | h :: t => String c h :: t
           end
  end.

(** [n.toString()] for an integer [n] below 10^21 in magnitude, where
    JavaScript prints every digit; from 10^21 on it prints an exponent
    form, which no port number reaches. *)
Definition num_toString (n : Z) : string := NilZero.string_of_int (Z.to_int n).

(** ASCII lower-casing, used only to phrase case-insensitive matching. *)
Definition lower_ascii (c : ascii) : ascii :=
  let n := nat_of_ascii c in
  if (Nat.leb 65 n && Nat.leb n 90)%bool then ascii_of_nat (n + 32) else c.

Fixpoint toLowerCase (s : string) : string :=
  match s with
  | EmptyString => EmptyString
  | String c rest => String (lower_ascii c) (toLowerCase rest)
  end.

End Js.
Import Js.

(** ** The two outbound requests

    Both requests are issued with [validateStatus: status => true], so
    axios resolves for every HTTP status and rejects only on a transport
    failure or a timeout. *)

Inductive AxiosResult : Type :=
| Response (status : Z) (data : JsVal)
| Rejected.

(** [testProxy]: the verdict computed from the outcome of the probe
    request.  The value returned is the value of
    [response.status === 200 && isTargetContent], which is one of the
    operands, not necessarily a boolean; callers test it for truthiness. *)
Definition isTargetContent (data : JsVal) : JsVal :=
  if truthy data then
    match data with
    | JStr s => JBool (includes s "notion" || includes s "Notion")
    | _ => JBool false
    end
  else data.

Definition testProxy (probe : AxiosResult) : JsVal :=
  match probe with
  | Rejected => JBool false
  | Response status data => jsAnd (JBool (status =? 200)) (isTargetContent data)
  end.

(** [getProxiesFromProvider]: the value handed back to the caller, from
    the outcome of the listing request.  The whole body sits in a
    [try]/[catch] that returns [[]]; the only statement that can throw
    after the request is the log line, which reads
    [response.data.data.count] and converts it to a string. *)
Definition getProxiesFromProvider (listing : AxiosResult) : JsVal :=
  match listing with
  | Rejected => JArr []
  | Response _ data =>
      if truthy data then
        match getProp data "code" with
        | Some code =>
            if strictEqNum code 200 then
              match getProp data "data" with
              | Some inner =>
                  match getProp inner "count" with
                  | Some count =>
                      if toString_throws count then JArr []
                      else
                        match getProp inner "proxies" with
                        | Some proxies => proxies
                        | None => JArr []
                        end
                  | None => JArr []
                  end
              | None => JArr []
              end
            else JArr []
        | None => JArr []
        end
      else JArr []
  end.

(** The verdict rule as the specification words it: status 200 and a
    textual body containing the marker, compared without regard to case. *)
Definition marker : string := "notion".

Definition spec_valid_ci (probe : AxiosResult) : Prop :=
  match probe with
  | Response status (JStr body) =>
      status = 200 /\ includes (toLowerCase body) marker = true
  | _ => False
  end.

(** ** The constructor *)

Module Options.

Inductive Name : Type :=
| TargetCount | BatchSize | TestTimeout | RequestTimeout | TargetUrl
| ConcurrentRequests | MinThreshold | CheckInterval | ProxyProtocol
| MaxRefillAttempts | RetryDelay | CacheExpiry.

Definition all_names : list Name :=
  [TargetCount; BatchSize; TestTimeout; RequestTimeout; TargetUrl;
   ConcurrentRequests; MinThreshold; CheckInterval; ProxyProtocol;
   MaxRefillAttempts; RetryDelay; CacheExpiry].

Definition key (n : Name) : string :=
  match n with
  | TargetCount => "targetCount"
  | BatchSize => "batchSize"
  | TestTimeout => "testTimeout"
  | RequestTimeout => "requestTimeout"
  | TargetUrl => "targetUrl"
  | ConcurrentRequests => "concurrentRequests"
  | MinThreshold => "minThreshold"
  | CheckInterval => "checkInterval"
  | ProxyProtocol => "proxyProtocol"
  | MaxRefillAttempts => "maxRefillAttempts"
  | RetryDelay => "retryDelay"
  | CacheExpiry => "cacheExpiry"
  end.

(** The defaults documented in the constructor's JSDoc. *)
Definition default (n : Name) : JsVal :=
  match n with
  | TargetCount => JNum 20
  | BatchSize => JNum 20
  | TestTimeout => JNum 5000
  | RequestTimeout => JNum 10000
  | TargetUrl => JStr "https://www.notion.so"
  | ConcurrentRequests => JNum 10
  | MinThreshold => JNum 5
  | CheckInterval => JNum 30000
  | ProxyProtocol => JStr "http"
  | MaxRefillAttempts => JNum 20
  | RetryDelay => JNum 1000
  | CacheExpiry => JNum 3600000
  end.

Definition numeric (n : Name) : bool :=
  match n with
  | TargetUrl | ProxyProtocol => false
  | _ => true
  end.

(** The configuration part of [this] after the constructor ran. *)
Record Raw : Type := mkRaw {
  targetCount : JsVal;
  batchSize : JsVal;
  testTimeout : JsVal;
  requestTimeout : JsVal;
  targetUrl : JsVal;
  concurrentRequests : JsVal;
  minThreshold : JsVal;
  checkInterval : JsVal;
  proxyProtocol : JsVal;
  maxRefillAttempts : JsVal;
  retryDelay : JsVal;
  useCache : JsVal;
  cacheExpiry : JsVal
}.

Definition field (n : Name) (r : Raw) : JsVal :=
  match n with
  | TargetCount => targetCount r
  | BatchSize => batchSize r
  | TestTimeout => testTimeout r
  | RequestTimeout => requestTimeout r
  | TargetUrl => targetUrl r
  | ConcurrentRequests => concurrentRequests r
  | MinThreshold => minThreshold r
  | CheckInterval => checkInterval r
  | ProxyProtocol => proxyProtocol r
  | MaxRefillAttempts => maxRefillAttempts r
  | RetryDelay => retryDelay r
  | CacheExpiry => cacheExpiry r
  end.

(** [constructor(options = {})].  The default parameter replaces only
    [undefined]; [null] makes the first property read throw. *)
Definition constructor (options : JsVal) : option Raw :=
  let options := match options with JUndefined => JObj [] | _ => options end in
  match options with
  | JNull => None
  | _ =>
      let rd k := match getProp options k with Some v => v | None => JUndefined end in
      Some {|
        targetCount := jsOr (rd "targetCount") (JNum 20);
        batchSize := jsOr (rd "batchSize") (JNum 20);
        testTimeout := jsOr (rd "testTimeout") (JNum 5000);
        requestTimeout := jsOr (rd "requestTimeout") (JNum 10000);
        targetUrl := jsOr (rd "targetUrl") (JStr "https://www.notion.so");
        concurrentRequests := jsOr (rd "concurrentRequests") (JNum 10);
        minThreshold := jsOr (rd "minThreshold") (JNum 5);
        checkInterval := jsOr (rd "checkInterval") (JNum 30000);
        proxyProtocol := jsOr (rd "proxyProtocol") (JStr "http");
        maxRefillAttempts := jsOr (rd "maxRefillAttempts") (JNum 20);
        retryDelay := jsOr (rd "retryDelay") (JNum 1000);
        useCache := if notUndefined (rd "useCache") then rd "useCache" else JBool true;
        cacheExpiry := jsOr (rd "cacheExpiry") (JNum 3600000)
      |}
  end.

End Options.

(** ** Pool members, the validation cache, the manager object *)

(** A member of [availableProxies].  [port] is the second component of
    [proxy.split(':')], which is [undefined] ([None]) when the raw string
    has no colon.  [addedAt] keeps the clock reading that the source
    renders with [toISOString]. *)
Record ProxyObj : Type := mkProxy {
  ip : string;
  port : option string;
  protocol : string;
  full : string;
  addedAt : Z
}.

Record CacheEntry : Type := mkEntry {
  valid : bool;
  timestamp : Z
}.

(** [proxyCache] is a JavaScript [Map]: iteration follows insertion order,
    [set] on a present key keeps the key's position. *)
Definition Cache : Type := list (string * CacheEntry).

Fixpoint map_get (k : string) (m : Cache) : option CacheEntry :=
  match m with
  | [] => None
  | (k', e) :: rest => if (k =? k')%string then Some e else map_get k rest
  end.

Fixpoint map_set (k : string) (e : CacheEntry) (m : Cache) : Cache :=
  match m with
  | [] => [(k, e)]
  | (k', e') :: rest =>
      if (k =? k')%string then (k, e) :: rest else (k', e') :: map_set k e rest
  end.

(** The typed configuration a running pool works with.  Counts and
    durations are integers; [concurrentRequests] is a positive count (the
    constructor never leaves it at zero). *)
Record Config : Type := mkConfig {
  targetCount : Z;
  batchSize : Z;
  concurrentRequests : positive;
  minThreshold : Z;
  maxRefillAttempts : Z;
  retryDelay : Z;
  useCache : bool;
  cacheExpiry : Z;
  proxyProtocol : string
}.

(** The manager object.  [tick] is not a field of the JavaScript object:
    it counts the consultations of the outside world made so far and
    indexes the oracles below. *)
Record ProxyPool : Type := mkPool {
  cfg : Config;
  availableProxies : list ProxyObj;
  currentIndex : nat;
  isRefilling : bool;
  proxyCache : Cache;
  tick : nat
}.

Definition new_ProxyPool (c : Config) : ProxyPool :=
  {| cfg := c; availableProxies := []; currentIndex := 0;
     isRefilling := false; proxyCache := []; tick := 0 |}.

Definition set_proxies (l : list ProxyObj) (st : ProxyPool) : ProxyPool :=
  {| cfg := cfg st; availableProxies := l; currentIndex := currentIndex st;
     isRefilling := isRefilling st; proxyCache := proxyCache st; tick := tick st |}.

Definition set_index (i : nat) (st : ProxyPool) : ProxyPool :=
  {| cfg := cfg st; availableProxies := availableProxies st; currentIndex := i;
     isRefilling := isRefilling st; proxyCache := proxyCache st; tick := tick st |}.

Definition set_refilling (b : bool) (st : ProxyPool) : ProxyPool :=
  {| cfg := cfg st; availableProxies := availableProxies st;
     currentIndex := currentIndex st;
     isRefilling := b; proxyCache := proxyCache st; tick := tick st |}.

Definition set_cache (m : Cache) (st : ProxyPool) : ProxyPool :=
  {| cfg := cfg st; availableProxies := availableProxies st;
     currentIndex := currentIndex st;
     isRefilling := isRefilling st; proxyCache := m; tick := tick st |}.

Definition advance (st : ProxyPool) : ProxyPool :=
  {| cfg := cfg st; availableProxies := availableProxies st;
     currentIndex := currentIndex st;
     isRefilling := isRefilling st; proxyCache := proxyCache st;
     tick := S (tick st) |}.

Definition size (st : ProxyPool) : Z := Z.of_nat (List.length (availableProxies st)).

(** [const [ip, port] = proxy.split(':')]. *)
Definition ip_port (proxy : string) : string * option string :=
  match split_colon proxy with
  | [] => (EmptyString, None)
  | h :: [] => (h, None)
  | h :: p :: _ => (h, Some p)
  end.

Definition port_eqb (a b : option string) : bool :=
  match a, b with
  | Some x, Some y => (x =? y)%string
  | None, None => true
  | _, _ => false
  end.

(** [p.ip === ip && p.port === port]. *)
Definition same_endpoint (i : string) (p : option string) (m : ProxyObj) : bool :=
  ((ip m =? i)%string && port_eqb (port m) p)%bool.

Definition key_of (m : ProxyObj) : string * option string := (ip m, port m).

(** The [port] argument of [removeProxy] is a string or a number. *)
Inductive PortArg : Type :=
| PortStr (s : string)
| PortNum (n : Z).

Definition port_toString (p : PortArg) : string :=
  match p with
  | PortStr s => s
  | PortNum n => num_toString n
  end.

(** The members left once the endpoint [(i, p)] is filtered out. *)
Definition without (i : string) (p : PortArg) (l : list ProxyObj) : list ProxyObj :=
  filter (fun m => negb (same_endpoint i (Some (port_toString p)) m)) l.

(** What [getProxy] hands back: [null] on an empty pool, the element at
    the cursor otherwise, which is [undefined] past the end of the array. *)
Inductive ProxyRef : Type :=
| RNull
| RUndefined
| RProxy (p : ProxyObj).

(** One entry of the arrays passed between [testProxiesConcurrently] and
    [addValidProxies]: [{ proxy, result }]. *)
Definition TestResult : Type := (string * JsVal)%type.

Definition successCount (results : list TestResult) : Z :=
  Z.of_nat (List.length (filter (fun r => truthy (snd r)) results)).

(** What the constructor's output means for a running pool, when every
    option has the type its JSDoc gives it.  [useCache] is only ever
    tested for truthiness. *)
Definition config_of_raw (r : Options.Raw) : option Config :=
  match Options.targetCount r, Options.batchSize r, Options.concurrentRequests r,
        Options.minThreshold r, Options.maxRefillAttempts r, Options.retryDelay r,
        Options.cacheExpiry r, Options.proxyProtocol r with
  | JNum tc, JNum bs, JNum (Zpos cr), JNum mt, JNum ma, JNum rd, JNum ce, JStr pp =>
      Some {| targetCount := tc; batchSize := bs; concurrentRequests := cr;
              minThreshold := mt; maxRefillAttempts := ma; retryDelay := rd;
              useCache := truthy (Options.useCache r); cacheExpiry := ce;
              proxyProtocol := pp |}
  | _, _, _, _, _, _, _, _ => None
  end.

(** ** The methods *)

Section Methods.

(** The outside world.  [now t] is what [Date.now()] reads at tick [t];
    [listing t count] is the outcome of the listing request issued at tick
    [t] for [count] candidates; [probe t proxy] is the outcome of the
    request sent through [proxy] at tick [t]. *)
Variable now : nat -> Z.
Variable listing : nat -> Z -> AxiosResult.
Variable probe : nat -> string -> AxiosResult.

(** [Date.now()]. *)
Definition read_clock (st : ProxyPool) : Z * ProxyPool := (now (tick st), advance st).

Definition cache_set (k : string) (v : bool) (st : ProxyPool) : ProxyPool :=
  let '(t, st1) := read_clock st in
  set_cache (map_set k {| valid := v; timestamp := t |} (proxyCache st1)) st1.

Definition is_member (i : string) (p : option string) (st : ProxyPool) : bool :=
  existsb (same_endpoint i p) (availableProxies st).

(** [getProxy]. *)
Definition getProxy (st : ProxyPool) : ProxyRef * ProxyPool :=
  match availableProxies st with
  | [] => (RNull, st)
  | _ :: _ =>
      let proxy := match nth_error (availableProxies st) (currentIndex st) with
                   | Some p => RProxy p
                   | None => RUndefined
                   end in
      (proxy,
       set_index (Nat.modulo (currentIndex st + 1) (List.length (availableProxies st))) st)
  end.

(** [n] calls in a row. *)
Fixpoint getProxy_times (n : nat) (st : ProxyPool) : list ProxyRef * ProxyPool :=
  match n with
  | O => ([], st)
  | S k =>
      let '(r, st1) := getProxy st in
      let '(rs, st2) := getProxy_times k st1 in
      (r :: rs, st2)
  end.

(** [addValidProxies(results)]. *)
Fixpoint addValidProxies (results : list TestResult) (st : ProxyPool) : ProxyPool :=
  match results with
  | [] => st
  | (proxy, result) :: rest =>
      if truthy result then
        let '(i, p) := ip_port proxy in
        if negb (is_member i p st) then
          let '(t, st1) := read_clock st in
          let proxyObj :=
            {| ip := i; port := p; protocol := proxyProtocol (cfg st);
               full := (proxyProtocol (cfg st) ++ "://" ++ proxy)%string;
               addedAt := t |} in
          let st2 := set_proxies (availableProxies st1 ++ [proxyObj]) st1 in
          let st3 := if useCache (cfg st2) then cache_set proxy true st2 else st2 in
          if size st3 >=? targetCount (cfg st3) then st3
          else addValidProxies rest st3
        else addValidProxies rest st
      else if useCache (cfg st) then addValidProxies rest (cache_set proxy false st)
      else addValidProxies rest st
  end.

(** [filterExistingProxies(proxies)] on whatever the provider client
    returned.  [None] is a TypeError: [proxies.filter] exists only on
    arrays and [proxy.split] only on strings. *)
Fixpoint filter_strings (st : ProxyPool) (items : list JsVal) : option (list string) :=
  match items with
  | [] => Some []
  | JStr proxy :: rest =>
      let '(i, p) := ip_port proxy in
      match filter_strings st rest with
      | Some l => Some (if negb (is_member i p st) then proxy :: l else l)
      | None => None
      end
  | _ :: _ => None
  end.

Definition filterExistingProxies (proxies : JsVal) (st : ProxyPool) : option (list string) :=
  match proxies with
  | JArr items => filter_strings st items
  | _ => None
  end.

(** [proxies.length === 0]; [None] is the TypeError of reading [length]
    from [undefined] or [null]. *)
Definition length_is_zero (proxies : JsVal) : option bool :=
  match getProp proxies "length" with
  | Some l => Some (strictEqNum l 0)
  | None => None
  end.

(** One callback of [batch.map] in [testProxiesConcurrently]: a fresh
    cached verdict is used as it is, otherwise the candidate is probed. *)
Definition probe_one (proxy : string) (st : ProxyPool) : TestResult * ProxyPool :=
  ((proxy, testProxy (probe (tick st) proxy)), advance st).

Definition test_one (proxy : string) (st : ProxyPool) : TestResult * ProxyPool :=
  if useCache (cfg st) then
    match map_get proxy (proxyCache st) with
    | Some cachedResult =>
        let '(t, st1) := read_clock st in
        if t - timestamp cachedResult <? cacheExpiry (cfg st1)
        then ((proxy, JBool (valid cachedResult)), st1)
        else probe_one proxy st1
    | None => probe_one proxy st
    end
  else probe_one proxy st.

Fixpoint test_batch (batch : list string) (st : ProxyPool) : list TestResult * ProxyPool :=
  match batch with
  | [] => ([], st)
  | proxy :: rest =>
      let '(r, st1) := test_one proxy st in
      let '(rs, st2) := test_batch rest st1 in
      (r :: rs, st2)
  end.

(** [Math.min(this.concurrentRequests * 2, 20)]. *)
Definition chunk_size (c : Config) : nat :=
  Pos.to_nat (Pos.min (concurrentRequests c * 2) 20).

(** The chunk loop of [testProxiesConcurrently]; [todo] is
    [proxies.slice(i)].  The chunk size is positive, so [fuel] equal to
    the number of candidates is never used up. *)
Fixpoint test_chunks (fuel : nat) (remainingNeeded : Z) (todo : list string)
    (results : list TestResult) (st : ProxyPool) : list TestResult * ProxyPool :=
  match fuel with
  | O => (results, st)
  | S fuel' =>
      match todo with
      | [] => (results, st)
      | _ :: _ =>
          let batch := firstn (chunk_size (cfg st)) todo in
          let '(batchResults, st1) := test_batch batch st in
          let results1 := (results ++ batchResults)%list in
          if successCount results1 >=? remainingNeeded then (results1, st1)
          else test_chunks fuel' remainingNeeded (skipn (chunk_size (cfg st)) todo)
                 results1 st1
      end
  end.

Definition testProxiesConcurrently (proxies : list string) (st : ProxyPool)
  : list TestResult * ProxyPool :=
  let remainingNeeded := targetCount (cfg st) - size st in
  test_chunks (List.length proxies) remainingNeeded proxies [] st.

(** The scan of [tryUsingCachedProxies]: keys of fresh valid entries, in
    map order, stopping once [neededProxies] keys are collected (the test
    runs after the push). *)
Fixpoint collect_cached (c : Config) (t : Z) (neededProxies : Z) (entries : Cache)
    (cachedProxies : list string) : list string :=
  match entries with
  | [] => cachedProxies
  | (proxyKey, data) :: rest =>
      if ((t - timestamp data <? cacheExpiry c) && valid data)%bool then
        let cachedProxies1 := (cachedProxies ++ [proxyKey])%list in
        if Z.of_nat (List.length cachedProxies1) >=? neededProxies then cachedProxies1
        else collect_cached c t neededProxies rest cachedProxies1
      else collect_cached c t neededProxies rest cachedProxies
  end.

Definition tryUsingCachedProxies (neededProxies : Z) (st : ProxyPool) : ProxyPool :=
  let '(t, st1) := read_clock st in
  let cachedProxies := collect_cached (cfg st1) t neededProxies (proxyCache st1) [] in
  match cachedProxies with
  | [] => st1
  | _ :: _ =>
      let '(results, st2) := testProxiesConcurrently cachedProxies st1 in
      addValidProxies results st2
  end.

(** One pass through the body of the [while] loop of [refillProxies]. *)
Inductive Step : Type :=
| Continue    (* [continue], or falling off the end of the body *)
| Break       (* the early [break] once the target is reached *)
| Throw.      (* an exception leaves the [try] block *)

Definition refill_attempt (st : ProxyPool) : Step * ProxyPool :=
  let remainingNeeded := targetCount (cfg st) - size st in
  let batchSizeNeeded := Z.max (batchSize (cfg st)) (remainingNeeded * 2) in
  let requestCount := if batchSizeNeeded =? 0 then batchSize (cfg st) else batchSizeNeeded in
  let proxies := getProxiesFromProvider (listing (tick st) requestCount) in
  let st1 := advance st in
  match length_is_zero proxies with
  | None => (Throw, st1)
  | Some true => (Continue, st1)
  | Some false =>
      match filterExistingProxies proxies st1 with
      | None => (Throw, st1)
      | Some [] => (Continue, st1)
      | Some (p :: ps) =>
          let '(results, st2) := testProxiesConcurrently (p :: ps) st1 in
          let st3 := addValidProxies results st2 in
          if size st3 >=? targetCount (cfg st3) then (Break, st3)
          else (Continue, st3)
      end
  end.

(** The [while] loop; [attempts] is the local counter.  Each pass
    increments [attempts], so [fuel] equal to the distance to
    [maxRefillAttempts] is never used up. *)
Fixpoint refill_loop (fuel : nat) (attempts : nat) (st : ProxyPool)
  : (Step * nat) * ProxyPool :=
  match fuel with
  | O => ((Continue, attempts), st)
  | S fuel' =>
      if ((size st <? targetCount (cfg st))
          && (Z.of_nat attempts <? maxRefillAttempts (cfg st)))%bool then
        match refill_attempt st with
        | (Continue, st1) => refill_loop fuel' (S attempts) st1
        | (Break, st1) => ((Break, S attempts), st1)
        | (Throw, st1) => ((Throw, S attempts), st1)
        end
      else ((Continue, attempts), st)
  end.

(** What one call of [refillProxies] did: how many acquisition attempts
    it made and whether the [catch] clause ran. *)
Record Cycle : Type := mkCycle {
  attempts_made : nat;
  caught : bool
}.

(** The [try]/[catch]/[finally] of [refillProxies], entered with
    [isRefilling] already set. *)
Definition refill_cycle (st : ProxyPool) : Cycle * ProxyPool :=
  let neededProxies := targetCount (cfg st) - size st in
  let st1 :=
    if (useCache (cfg st) && (0 <? Z.of_nat (List.length (proxyCache st))))%bool
    then tryUsingCachedProxies neededProxies st else st in
  let '((step, attempts), st2) :=
    refill_loop (Z.to_nat (maxRefillAttempts (cfg st1))) 0 st1 in
  ({| attempts_made := attempts;
      caught := match step with Throw => true | _ => false end |},
   set_refilling false st2).

(** [refillProxies]. *)
Definition refillProxies (st : ProxyPool) : Cycle * ProxyPool :=
  if isRefilling st then ({| attempts_made := 0; caught := false |}, st)
  else refill_cycle (set_refilling true st).

(** [checkAndRefill], awaited to completion (the maintenance timer). *)
Definition checkAndRefill (st : ProxyPool) : ProxyPool :=
  if ((size st <=? minThreshold (cfg st)) && negb (isRefilling st))%bool
  then snd (refillProxies st) else st.

(** The part of an un-awaited [this.checkAndRefill()] that runs before
    control returns to the caller.  [refillProxies] sets the flag and runs
    up to its first [await]: the cache-first pass or the first listing
    request.  When it meets neither it runs through [finally] at once.
    A cycle left pending continues later as [refill_cycle]. *)
Definition reaches_await (st : ProxyPool) : bool :=
  ((useCache (cfg st) && (0 <? Z.of_nat (List.length (proxyCache st))))
   || ((size st <? targetCount (cfg st)) && (0 <? maxRefillAttempts (cfg st))))%bool.

Definition checkAndRefill_start (st : ProxyPool) : ProxyPool :=
  if ((size st <=? minThreshold (cfg st)) && negb (isRefilling st))%bool
  then (if reaches_await st then set_refilling true st else st)
  else st.

(** [removeProxy(ip, port)]. *)
Definition removeProxy (i : string) (p : PortArg) (st : ProxyPool) : bool * ProxyPool :=
  let portStr := port_toString p in
  let initialLength := List.length (availableProxies st) in
  let proxyToRemove := find (same_endpoint i (Some portStr)) (availableProxies st) in
  let st1 :=
    match proxyToRemove with
    | Some _ =>
        if useCache (cfg st) then cache_set (i ++ ":" ++ portStr)%string false st else st
    | None => st
    end in
  let st2 :=
    set_proxies (filter (fun m => negb (same_endpoint i (Some portStr) m))
                   (availableProxies st1)) st1 in
  let st3 :=
    if (Nat.leb (List.length (availableProxies st2)) (currentIndex st2)
        && Nat.ltb 0 (List.length (availableProxies st2)))%bool
    then set_index 0 st2 else st2 in
  let removed := Nat.ltb (List.length (availableProxies st3)) initialLength in
  (removed, checkAndRefill_start st3).

(** [cleanupCache]: deleting the entry under the iterator does not
    disturb a [Map] iteration, so the loop is a filter. *)
Definition cleanupCache (st : ProxyPool) : ProxyPool :=
  if negb (useCache (cfg st)) then st
  else
    let '(t, st1) := read_clock st in
    set_cache (filter (fun kv => negb (t - timestamp (snd kv) >? cacheExpiry (cfg st1)))
                 (proxyCache st1)) st1.

End Methods.

(** [removeProxy(proxy.ip, proxy.port)] on a proxy object that [getProxy]
    handed out, as the usage example calls it.  The stored port is a
    string or [undefined]; on [undefined] the first statement of
    [removeProxy], [port.toString()], throws a TypeError before anything
    is changed ([None]). *)
Definition removeProxy_of (now : nat -> Z) (proxy : ProxyObj) (st : ProxyPool)
  : option (bool * ProxyPool) :=
  match port proxy with
  | Some portStr => Some (removeProxy now (ip proxy) (PortStr portStr) st)
  | None => None
  end.

(** ** Invariants and operation sequences *)

(** No two members share [(ip, port)]. *)
Definition unique_endpoints (st : ProxyPool) : Prop :=
  NoDup (map key_of (availableProxies st)).

(** The cursor is inside the array, or rests at 0 on an empty pool. *)
Definition cursor_in_bounds (st : ProxyPool) : Prop :=
  (currentIndex st < List.length (availableProxies st))%nat
  \/ (availableProxies st = [] /\ currentIndex st = 0%nat).

(** [st'] differs from [st] in the tick alone. *)
Definition only_tick (st st' : ProxyPool) : Prop :=
  cfg st' = cfg st /\ availableProxies st' = availableProxies st
  /\ currentIndex st' = currentIndex st /\ isRefilling st' = isRefilling st
  /\ proxyCache st' = proxyCache st.

(** [st'] keeps the configuration, the cursor and the flag of [st]. *)
Definition keeps_control (st st' : ProxyPool) : Prop :=
  cfg st' = cfg st /\ currentIndex st' = currentIndex st
  /\ isRefilling st' = isRefilling st.

(** What can happen to a manager between two moments at which other code
    may run.  Whole method calls come first; the last three are the
    pieces of a refill cycle between its [await]s, so that a run can place
    a client's call in the middle of a cycle. *)
Inductive Op : Type :=
| OpAdd (results : list TestResult)   (* [addValidProxies(results)] *)
| OpRemove (i : string) (p : PortArg) (* [removeProxy(i, p)] *)
| OpNext                              (* [getProxy()] *)
| OpRefill                            (* [refillProxies()], run through *)
| OpResume                            (* a cycle left pending by [removeProxy] *)
| OpCheck                             (* the timer's [checkAndRefill()] *)
| OpSweep                             (* [cleanupCache()] *)
| OpFlag (b : bool)                   (* entering or leaving a cycle *)
| OpCachePass                         (* the cache-first pass of a cycle *)
| OpPass.                             (* one pass of the acquisition loop *)

Section Runs.

Variable now : nat -> Z.
Variable listing : nat -> Z -> AxiosResult.
Variable probe : nat -> string -> AxiosResult.

(** Either nothing but the tick moved, or a batch was tested and its
    results were handed to [addValidProxies]. *)
Definition ticked_or_added (st st' : ProxyPool) : Prop :=
  only_tick st st'
  \/ exists (proxies : list string) (st0 : ProxyPool),
       only_tick st st0 /\
       st' = addValidProxies now
               (fst (testProxiesConcurrently now probe proxies st0))
               (snd (testProxiesConcurrently now probe proxies st0)).

(** [OpResume] runs a pending cycle in one piece from the state it
    finds, which is what the program does when nothing else runs between
    the return of [removeProxy] and the end of the cycle.  When a client
    call falls between two [await]s of the cycle, the cycle goes on with
    the count of missing members and the cached verdicts it read before
    that call; such a run is made of the finer steps, an [OpAdd] carrying
    the results the cycle ends up with. *)
Definition step (op : Op) (st : ProxyPool) : ProxyPool :=
  match op with
  | OpAdd results => addValidProxies now results st
  | OpRemove i p => snd (removeProxy now i p st)
  | OpNext => snd (getProxy st)
  | OpRefill => snd (refillProxies now listing probe st)
  | OpResume => if isRefilling st then snd (refill_cycle now listing probe st) else st
  | OpCheck => checkAndRefill now listing probe st
  | OpSweep => cleanupCache now st
  | OpFlag b => set_refilling b st
  | OpCachePass => tryUsingCachedProxies now probe (targetCount (cfg st) - size st) st
  | OpPass => snd (refill_attempt now listing probe st)
  end.

Fixpoint run (ops : list Op) (st : ProxyPool) : ProxyPool :=
  match ops with
  | [] => st
  | op :: rest => run rest (step op st)
  end.

End Runs.

(** The keys the cache-first pass of a cycle entered in state [st] would
    hand to the validator. *)
Definition cached_candidates (now : nat -> Z) (st : ProxyPool) : list string :=
  if (useCache (cfg st) && (0 <? Z.of_nat (List.length (proxyCache st))))%bool
  then collect_cached (cfg st) (now (tick st)) (targetCount (cfg st) - size st)
         (proxyCache st) []
  else [].

(** ** Sample configurations and pools *)

(** [new ProxyPool()]: every option at its default. *)
Definition default_config : Config :=
  {| targetCount := 20; batchSize := 20; concurrentRequests := 10;
     minThreshold := 5; maxRefillAttempts := 20; retryDelay := 1000;
     useCache := true; cacheExpiry := 3600000; proxyProtocol := "http" |}.

Definition with_target (n : Z) (c : Config) : Config :=
  {| targetCount := n; batchSize := batchSize c;
     concurrentRequests := concurrentRequests c;
     minThreshold := minThreshold c; maxRefillAttempts := maxRefillAttempts c;
     retryDelay := retryDelay c; useCache := useCache c;
     cacheExpiry := cacheExpiry c; proxyProtocol := proxyProtocol c |}.

(** A clock stopped at zero. *)
Definition frozen_clock : nat -> Z := fun _ => 0.

(** Three candidates that validated, admitted into a fresh default pool. *)
Definition three_valid : list TestResult :=
  [("1.1.1.1:8080", JBool true); ("2.2.2.2:8080", JBool true);
   ("3.3.3.3:8080", JBool true)].

Definition pool_of_three : ProxyPool :=
  addValidProxies frozen_clock three_valid (new_ProxyPool default_config).

(** The same pool after one [getProxy]: the cursor stands at 1. *)
Definition pool_of_three_turned : ProxyPool := snd (getProxy pool_of_three).

(** The listing envelope [{ code: 200, data: { count, proxies } }]. *)
Definition envelope (proxies : list string) : JsVal :=
  JObj [("code", JNum 200);
        ("data", JObj [("count", JNum (Z.of_nat (List.length proxies)));
                       ("proxies", JArr (map JStr proxies))])].

Definition envelope_proxies (proxies : list string) : JsVal :=
  JArr (map JStr proxies).

(** An envelope with the success code and no [proxies] field. *)
Definition envelope_without_proxies : JsVal :=
  JObj [("code", JNum 200); ("data", JObj [("count", JNum 0)])].

Definition dead_listing : nat -> Z -> AxiosResult := fun _ _ => Rejected.

Definition broken_listing : nat -> Z -> AxiosResult :=
  fun _ _ => Response 200 envelope_without_proxies.

Definition listing_of_three : nat -> Z -> AxiosResult :=
  fun _ _ => Response 200 (envelope ["1.1.1.1:8080"; "2.2.2.2:8080"; "3.3.3.3:8080"]).

(** One candidate first, then the same candidate with a new one. *)
Definition listing_with_duplicate : nat -> Z -> AxiosResult :=
  fun t _ =>
    if (t =? 0)%nat then Response 200 (envelope ["1.1.1.1:8080"])
    else Response 200 (envelope ["1.1.1.1:8080"; "4.4.4.4:8080"]).

(** Every candidate reaches the target service. *)
Definition good_probe : nat -> string -> AxiosResult :=
  fun _ _ => Response 200 (JStr "<title>Notion</title>").

Definition dead_probe : nat -> string -> AxiosResult := fun _ _ => Rejected.

(** A cache entry at the very end of its time-to-live: the clock reads 0
    while a candidate is admitted (two readings), 3600000 afterwards. *)
Definition clock_at_ttl : nat -> Z :=
  fun t => if (t <? 2)%nat then 0 else 3600000.

Definition pool_with_aged_entry : ProxyPool :=
  addValidProxies clock_at_ttl [("1.1.1.1:8080", JBool true)]
    (new_ProxyPool default_config).

(** A run that ends above the target, made of whole method calls.
    Target size 2.  The first cycle admits 2.2.2.2:8080 and, from a raw
    string written with three fields, 10.0.0.1:3128.  A client removes the
    latter; the cycle this starts fetches 3.3.3.3:8080.  The clock reads
    ten milliseconds per tick during all this and 3600040 afterwards: by
    then the cache entry of 2.2.2.2:8080 (written at 40) has expired and
    the entry of the raw string (written at 60) is still fresh. *)
Definition overshoot_config : Config := with_target 2 default_config.

Definition overshoot_clock : nat -> Z :=
  fun t => if (t <? 14)%nat then 10 * Z.of_nat t else 3600040.

Definition overshoot_listing : nat -> Z -> AxiosResult :=
  fun t _ =>
    if (t =? 0)%nat
    then Response 200 (envelope ["2.2.2.2:8080"; "10.0.0.1:3128:user"])
    else Response 200 (envelope ["3.3.3.3:8080"]).

Definition overshoot_history : list Op :=
  [OpRefill; OpRemove "10.0.0.1" (PortNum 3128); OpResume].

Definition overshoot_idle : ProxyPool :=
  run overshoot_clock overshoot_listing good_probe overshoot_history
    (new_ProxyPool overshoot_config).

Definition overshoot_next_cycle : Cycle * ProxyPool :=
  refillProxies overshoot_clock overshoot_listing good_probe overshoot_idle.

(** The same overshoot with the clock stopped, when the client's call
    falls into the sleep between the first and the second pass of a
    cycle. *)
Definition interleaved_listing : nat -> Z -> AxiosResult :=
  fun t _ =>
    if (t =? 0)%nat then Response 200 (envelope ["10.0.0.1:3128:user"])
    else Response 200 (envelope ["2.2.2.2:8080"; "3.3.3.3:8080"]).

Definition interleaved_history : list Op :=
  [OpFlag true; OpPass; OpRemove "10.0.0.1" (PortNum 3128); OpPass; OpFlag false].

Definition interleaved_idle : ProxyPool :=
  run frozen_clock interleaved_listing good_probe interleaved_history
    (new_ProxyPool overshoot_config).

(** ** Lifecycle: [initialize], [stop], the inspection methods

    [isInitialized] and [checkTimer] live beside the pool.  The interval
    timers belong to the runtime: [activeTimers] lists the intervals that
    are still scheduled, [nextTimer] is the next handle [setInterval]
    will return. *)
Record Manager : Type := mkManager {
  pool : ProxyPool;
  isInitialized : bool;
  checkTimer : option nat;
  activeTimers : list nat;
  nextTimer : nat
}.

Definition new_Manager (c : Config) : Manager :=
  {| pool := new_ProxyPool c; isInitialized := false; checkTimer := None;
     activeTimers := []; nextTimer := 0 |}.

Definition with_pool (p : ProxyPool) (m : Manager) : Manager :=
  {| pool := p; isInitialized := isInitialized m; checkTimer := checkTimer m;
     activeTimers := activeTimers m; nextTimer := nextTimer m |}.

(** The statements of [initialize] after [await this.refillProxies()]:
    [this.checkTimer = setInterval(...)], [this.isInitialized = true].
    [p] is the pool as the awaited cycle left it. *)
Definition initialize_finish (p : ProxyPool) (m : Manager) : Manager :=
  {| pool := p; isInitialized := true; checkTimer := Some (nextTimer m);
     activeTimers := nextTimer m :: activeTimers m; nextTimer := S (nextTimer m) |}.

(** [stop]: [clearInterval] on the stored handle, if there is one. *)
Definition stop (m : Manager) : Manager :=
  match checkTimer m with
  | Some id =>
      {| pool := pool m; isInitialized := isInitialized m; checkTimer := None;
         activeTimers := remove Nat.eq_dec id (activeTimers m);
         nextTimer := nextTimer m |}
  | None => m
  end.

(** [getAllProxies] (the spread copies the array) and [getCount]. *)
Definition getAllProxies (m : Manager) : list ProxyObj := availableProxies (pool m).

Definition getCount (m : Manager) : nat := List.length (availableProxies (pool m)).

(** The public calls on a manager and the firing of an interval. *)
Inductive Call : Type :=
| CallInitialize
| CallStop
| CallTimer
| CallGetProxy
| CallRemoveProxy (i : string) (p : PortArg)
| CallRefill
| CallResume
| CallCleanup.

Section Lifecycle.

Variable now : nat -> Z.
Variable listing : nat -> Z -> AxiosResult.
Variable probe : nat -> string -> AxiosResult.

(** [initialize], awaited to completion. *)
Definition initialize (m : Manager) : Manager :=
  if isInitialized m then m
  else initialize_finish (snd (refillProxies now listing probe (pool m))) m.

(** One firing of a scheduled interval: [this.checkAndRefill()]. *)
Definition timer_fires (m : Manager) : Manager :=
  match activeTimers m with
  | [] => m
  | _ :: _ => with_pool (checkAndRefill now listing probe (pool m)) m
  end.

Definition call (c : Call) (m : Manager) : Manager :=
  match c with
  | CallInitialize => initialize m
  | CallStop => stop m
  | CallTimer => timer_fires m
  | CallGetProxy => with_pool (snd (getProxy (pool m))) m
  | CallRemoveProxy i p => with_pool (snd (removeProxy now i p (pool m))) m
  | CallRefill => with_pool (snd (refillProxies now listing probe (pool m))) m
  | CallResume => with_pool (step now listing probe OpResume (pool m)) m
  | CallCleanup => with_pool (cleanupCache now (pool m)) m
  end.

Fixpoint calls (cs : list Call) (m : Manager) : Manager :=
  match cs with
  | [] => m
  | c :: rest => calls rest (call c m)
  end.

End Lifecycle.

(** ** Auxiliary notions for the properties *)

(** [s] contains no [':']. *)
Fixpoint no_colon (s : string) : bool :=
  match s with
  | EmptyString => true
  | String c rest => (negb (Ascii.eqb c ":"%char) && no_colon rest)%bool
  end.

(** [l] extended at its end gives [l']. *)
Definition extends {A : Type} (l l' : list A) : Prop := exists more, l' = (l ++ more)%list.

(** No cache entry says "valid". *)
Definition no_valid_entry (m : Cache) : Prop :=
  forall k e, In (k, e) m -> valid e = false.

(** Member [m] was built by [addValidProxies] from one of [results]: a
    result that tested truthy, whose endpoint [m] carries, written as
    [protocol://raw]. *)
Definition stems_from (c : Config) (results : list TestResult) (m : ProxyObj) : Prop :=
  exists proxy result,
    In (proxy, result) results /\ truthy result = true
    /\ key_of m = ip_port proxy
    /\ protocol m = proxyProtocol c
    /\ full m = (proxyProtocol c ++ "://" ++ proxy)%string.

(** At most one interval is scheduled, and it is the stored handle; a
    manager that was never initialized has none. *)
Definition timer_consistent (m : Manager) : Prop :=
  activeTimers m = match checkTimer m with Some id => [id] | None => [] end
  /\ (isInitialized m = false -> checkTimer m = None).

(** * Properties *)

(** ** Strings *)

Lemma prefix_append (t s : string) :
  String.prefix t s = true <-> exists b, s = (t ++ b)%string.
Proof.
  revert s. induction t as [|c t IH]; intros s; simpl.
  - split; [intros _; exists s; reflexivity | now destruct s].
  - destruct s as [|d s].
    + split; [discriminate | intros [b Hb]; discriminate].
    + simpl. destruct (ascii_dec c d) as [->|Hne].
      * rewrite IH. split; intros [b Hb]; exists b; congruence.
      * split; [discriminate | intros [b Hb]; congruence].
Qed.

Lemma includes_unfold (s t : string) :
  includes s t =
  if String.prefix t s then true
  else match s with
       | EmptyString => false
       | String _ rest => includes rest t
       end.
Proof. destruct s; reflexivity. Qed.

(** [includes] is substring search. *)
Lemma includes_substring (s t : string) :
  includes s t = true <-> exists a b, s = (a ++ t ++ b)%string.
Proof.
  induction s as [|c s IH]; rewrite includes_unfold.
  - destruct (String.prefix t "") eqn:Hp.
    + split; [intros _ | reflexivity].
      apply prefix_append in Hp as [b Hb]. exists EmptyString, b. exact Hb.
    + split; [discriminate|].
      intros [a [b Hab]]. destruct a; simpl in Hab.
      * assert (String.prefix t "" = true) by (apply prefix_append; eauto).
        congruence.
      * discriminate.
  - destruct (String.prefix t (String c s)) eqn:Hp.
    + split; [intros _ | reflexivity].
      apply prefix_append in Hp as [b Hb]. exists EmptyString, b. exact Hb.
    + rewrite IH. split.
      * intros [a [b Hab]]. exists (String c a), b. simpl. now rewrite Hab.
      * intros [a [b Hab]]. destruct a as [|d a]; simpl in Hab.
        -- assert (String.prefix t (String c s) = true)
             by (apply prefix_append; eauto).
           congruence.
        -- exists a, b. congruence.
Qed.

Lemma split_colon_nonempty (s : string) : split_colon s <> [].
Proof.
  destruct s as [|c s]; simpl; [discriminate|].
  destruct (Ascii.eqb c ":"); [discriminate|].
  destruct (split_colon s); discriminate.
Qed.

Example split_host_port : ip_port "1.1.1.1:8080" = ("1.1.1.1", Some "8080").
Proof. reflexivity. Qed.

Example split_no_colon : ip_port "localhost" = ("localhost", None).
Proof. reflexivity. Qed.

Example split_three_fields : ip_port "10.0.0.1:3128:user" = ("10.0.0.1", Some "3128").
Proof. reflexivity. Qed.

Example port_number_toString : port_toString (PortNum 8080) = "8080".
Proof. reflexivity. Qed.

(** ** The validator *)

Lemma isTargetContent_truthy (data : JsVal) :
  truthy (isTargetContent data) = true <->
  exists body, data = JStr body /\
    (includes body "notion" = true \/ includes body "Notion" = true).
Proof.
  unfold isTargetContent. split.
  - destruct (truthy data) eqn:Ht.
    + destruct data; simpl; try discriminate.
      intros H. exists s. split; [reflexivity|]. now apply orb_true_iff.
    + congruence.
  - intros [body [-> H]]. apply orb_true_iff in H.
    assert (Hne : truthy (JStr body) = true).
    { destruct body; [|reflexivity]. simpl in H. discriminate. }
    rewrite Hne. exact H.
Qed.

Lemma testProxy_truthy (r : AxiosResult) :
  truthy (testProxy r) = true <->
  exists body, r = Response 200 (JStr body) /\
    (includes body "notion" = true \/ includes body "Notion" = true).
Proof.
  destruct r as [status data|]; simpl.
  - unfold jsAnd. simpl. destruct (status =? 200) eqn:Hs.
    + apply Z.eqb_eq in Hs. subst status. rewrite isTargetContent_truthy.
      split; intros [body [H1 H2]]; exists body; split; congruence.
    + simpl. split; [discriminate|].
      intros [body [H _]]. inversion H; subst. discriminate.
  - split; [discriminate | intros [body [H _]]; discriminate].
Qed.

(** A falsy body is handed back as the verdict, not [false]. *)
Example testProxy_null_body : testProxy (Response 200 JNull) = JNull.
Proof. reflexivity. Qed.

(** C5, as stated, fails: a 200 response whose body spells the marker in
    capitals contains it case-insensitively, and [testProxy] rejects it. *)
Lemma C5_uppercase_marker_rejected :
  ~ (truthy (testProxy (Response 200 (JStr "NOTION"))) = true <->
     spec_valid_ci (Response 200 (JStr "NOTION"))).
Proof.
  intros [_ H]. assert (Hs : spec_valid_ci (Response 200 (JStr "NOTION"))).
  { split; reflexivity. }
  apply H in Hs. vm_compute in Hs. discriminate.
Qed.

(** C5, amended: [testProxy] reports valid (returns a truthy value) exactly
    when the status is 200 and the body is a string containing "notion" or
    "Notion", these two spellings compared case-sensitively; a transport
    error or timeout returns [false], and a non-textual body yields a falsy
    verdict. *)
Theorem C5_testProxy_verdict :
  (forall r : AxiosResult,
      truthy (testProxy r) = true <->
      exists body, r = Response 200 (JStr body) /\
        (exists a b, body = (a ++ "notion" ++ b)%string \/
                     body = (a ++ "Notion" ++ b)%string))
  /\ testProxy Rejected = JBool false
  /\ (forall status data,
         (forall body, data <> JStr body) ->
         truthy (testProxy (Response status data)) = false).
Proof.
  split; [|split].
  - intros r. rewrite testProxy_truthy. split.
    + intros [body [Hr [H|H]]]; apply includes_substring in H as [a [b H]];
        exists body; split; trivial; exists a, b; [left|right]; exact H.
    + intros [body [Hr [a [b [H|H]]]]]; exists body; split; trivial;
        [left|right]; apply includes_substring; eauto.
  - reflexivity.
  - intros status data Hns.
    destruct (truthy (testProxy (Response status data))) eqn:Ht; [|reflexivity].
    apply testProxy_truthy in Ht as [body [Hr _]].
    inversion Hr; subst. now destruct (Hns body).
Qed.

(** A page that carries the marker, and a numeric body. *)
Lemma C5_testProxy_verdict_witness :
  truthy (testProxy (Response 200 (JStr "<title>Notion</title>"))) = true
  /\ truthy (testProxy (Response 200 (JNum 7))) = false.
Proof.
  destruct C5_testProxy_verdict as [Hiff [_ Hnt]]. split.
  - apply (Hiff (Response 200 (JStr "<title>Notion</title>"))).
    exists "<title>Notion</title>". split; [reflexivity|].
    exists "<title>", "</title>". right. reflexivity.
  - apply (Hnt 200 (JNum 7)). intros body. discriminate.
Defined.

(** ** The provider client *)

Lemma provider_rejected_is_empty : getProxiesFromProvider Rejected = JArr [].
Proof. reflexivity. Qed.

Lemma provider_non_success_is_empty (status : Z) (data code : JsVal) :
  getProp data "code" = Some code ->
  strictEqNum code 200 = false ->
  getProxiesFromProvider (Response status data) = JArr [].
Proof.
  intros Hc Hn. simpl. rewrite Hc, Hn. now destruct (truthy data).
Qed.

Lemma provider_well_formed (status : Z) (count : JsVal) (items : list JsVal) (extra : list (string * JsVal)) :
  toString_throws count = false ->
  getProxiesFromProvider
    (Response status
       (JObj [("code", JNum 200);
              ("data", JObj (("count", count) :: ("proxies", JArr items) :: extra))]))
  = JArr items.
Proof. intros Hc. simpl. now rewrite Hc. Qed.

(** C7 at a malformed body that carries the success code: the envelope
    [{ code: 200, data: { count: 0 } }] has no [proxies] field, and the
    client returns [undefined], not an empty sequence.  The caller's
    [proxies.length] then throws. *)
Theorem C7_provider_missing_proxies_field :
  getProxiesFromProvider
    (Response 200 (JObj [("code", JNum 200); ("data", JObj [("count", JNum 0)])]))
  = JUndefined
  /\ length_is_zero JUndefined = None.
Proof. split; reflexivity. Qed.

(** ** The constructor *)

Lemma jsOr_falsy (a b : JsVal) : truthy a = false -> jsOr a b = b.
Proof. unfold jsOr. now intros ->. Qed.

Lemma jsOr_not_zero (a : JsVal) (d : Z) : d <> 0 -> jsOr a (JNum d) <> JNum 0.
Proof.
  intros Hd. unfold jsOr. destruct (truthy a) eqn:Ht.
  - intros ->. discriminate.
  - congruence.
Qed.

(** C10: every option but [useCache] falls back to its documented default
    when the supplied value is falsy; [useCache: false] is kept; no numeric
    option can end up zero. *)
Theorem C10_constructor_falsy_defaults (props : list (string * JsVal)) (r : Options.Raw) :
  Options.constructor (JObj props) = Some r ->
  (forall n : Options.Name,
      truthy (assoc (Options.key n) props) = false ->
      Options.field n r = Options.default n)
  /\ (assoc "useCache" props = JBool false -> Options.useCache r = JBool false)
  /\ (forall n : Options.Name,
         Options.numeric n = true -> Options.field n r <> JNum 0).
Proof.
  intros Hc. injection Hc as <-. split; [|split].
  - intros n Hf. destruct n; simpl in *; now apply jsOr_falsy.
  - simpl. intros ->. reflexivity.
  - intros n Hn. destruct n; simpl in *; try discriminate;
      apply jsOr_not_zero; discriminate.
Qed.

(** Three falsy options and [useCache: false]. *)
Lemma C10_constructor_falsy_defaults_witness :
  exists r,
    Options.constructor
      (JObj [("targetCount", JNum 0); ("retryDelay", JNum 0);
             ("proxyProtocol", JStr ""); ("useCache", JBool false)]) = Some r
    /\ Options.targetCount r = JNum 20
    /\ Options.retryDelay r = JNum 1000
    /\ Options.proxyProtocol r = JStr "http"
    /\ Options.useCache r = JBool false.
Proof.
  eexists. split; [reflexivity|].
  destruct (C10_constructor_falsy_defaults
              [("targetCount", JNum 0); ("retryDelay", JNum 0);
               ("proxyProtocol", JStr ""); ("useCache", JBool false)]
              _ eq_refl) as [Hd [Hu _]].
  split; [|split; [|split]].
  - exact (Hd Options.TargetCount eq_refl).
  - exact (Hd Options.RetryDelay eq_refl).
  - exact (Hd Options.ProxyProtocol eq_refl).
  - exact (Hu eq_refl).
Defined.

(** ** Round robin *)

Lemma set_index_same (st : ProxyPool) : set_index (currentIndex st) st = st.
Proof. now destruct st. Qed.

Lemma set_index_twice (a b : nat) (st : ProxyPool) :
  set_index a (set_index b st) = set_index a st.
Proof. reflexivity. Qed.

Lemma getProxy_empty (st : ProxyPool) :
  availableProxies st = [] -> getProxy st = (RNull, st).
Proof. unfold getProxy. now intros ->. Qed.

Lemma getProxy_at (st : ProxyPool) (c : nat) (x : ProxyObj) :
  nth_error (availableProxies st) c = Some x ->
  getProxy (set_index c st) =
  (RProxy x, set_index (Nat.modulo (c + 1) (List.length (availableProxies st))) st).
Proof.
  intros Hx. unfold getProxy. simpl.
  destruct (availableProxies st) as [|y l] eqn:Hl.
  - destruct c; discriminate.
  - rewrite Hx. reflexivity.
Qed.

Lemma getProxy_times_app (n m : nat) (st : ProxyPool) :
  getProxy_times (n + m) st =
  let '(rs1, st1) := getProxy_times n st in
  let '(rs2, st2) := getProxy_times m st1 in
  ((rs1 ++ rs2)%list, st2).
Proof.
  revert st. induction n as [|n IH]; intros st; simpl.
  - now destruct (getProxy_times m st).
  - destruct (getProxy st) as [r st1]. rewrite IH.
    destruct (getProxy_times n st1) as [rs1 st2].
    now destruct (getProxy_times m st2).
Qed.

Lemma skipn_cons_nth {A : Type} (l : list A) (c : nat) (x : A) :
  nth_error l c = Some x -> skipn c l = x :: skipn (S c) l.
Proof.
  revert c. induction l as [|y l IH]; intros [|c] Hx; try discriminate.
  - simpl in Hx. now inversion Hx.
  - simpl in Hx. apply IH in Hx. exact Hx.
Qed.

(** [k] calls starting at cursor [c] walk the array from position [c], as
    long as they do not run past its end. *)
Lemma getProxy_times_segment (st : ProxyPool) (k c : nat) :
  (c + k <= List.length (availableProxies st))%nat ->
  getProxy_times k (set_index (Nat.modulo c (List.length (availableProxies st))) st) =
  (map RProxy (firstn k (skipn c (availableProxies st))),
   set_index (Nat.modulo (c + k) (List.length (availableProxies st))) st).
Proof.
  revert c. induction k as [|k IH]; intros c Hle.
  - simpl. now rewrite Nat.add_0_r.
  - assert (Hc : (c < List.length (availableProxies st))%nat) by lia.
    destruct (nth_error (availableProxies st) c) as [x|] eqn:Hx;
      [|apply nth_error_None in Hx; lia].
    rewrite Nat.mod_small by exact Hc.
    cbn [getProxy_times]. rewrite (getProxy_at st c x Hx).
    specialize (IH (S c)). replace (c + 1)%nat with (S c) by lia.
    rewrite IH by lia.
    replace (S c + k)%nat with (c + S k)%nat by lia.
    f_equal. now rewrite (skipn_cons_nth _ _ _ Hx).
Qed.

(** A full turn from any cursor inside the array: the members from the
    cursor to the end, then those before the cursor; the state is back
    where it started. *)
Lemma getProxy_full_turn (st : ProxyPool) :
  (currentIndex st < List.length (availableProxies st))%nat ->
  getProxy_times (List.length (availableProxies st)) st =
  (map RProxy (skipn (currentIndex st) (availableProxies st)
               ++ firstn (currentIndex st) (availableProxies st)), st).
Proof.
  intros Hc.
  assert (H1 := getProxy_times_segment st
                  (List.length (availableProxies st) - currentIndex st)
                  (currentIndex st)).
  rewrite Nat.mod_small, set_index_same in H1 by exact Hc.
  assert (H2 := getProxy_times_segment st (currentIndex st) 0).
  rewrite Nat.Div0.mod_0_l in H2. simpl in H2.
  rewrite Nat.mod_small, set_index_same in H2 by exact Hc.
  replace (currentIndex st + (List.length (availableProxies st) - currentIndex st))%nat
    with (List.length (availableProxies st)) in H1 by lia.
  rewrite Nat.Div0.mod_same in H1.
  replace (List.length (availableProxies st))
    with ((List.length (availableProxies st) - currentIndex st) + currentIndex st)%nat
    at 1 by lia.
  rewrite getProxy_times_app, H1 by lia. rewrite H2 by lia.
  rewrite map_app. f_equal. f_equal. f_equal.
  apply firstn_all2. rewrite length_skipn. lia.
Qed.

Example default_config_from_constructor :
  option_map config_of_raw (Options.constructor JUndefined) = Some (Some default_config).
Proof. reflexivity. Qed.

Example pool_of_three_members :
  map full (availableProxies pool_of_three) =
  ["http://1.1.1.1:8080"; "http://2.2.2.2:8080"; "http://3.3.3.3:8080"]
  /\ currentIndex pool_of_three = 0%nat
  /\ currentIndex pool_of_three_turned = 1%nat.
Proof. repeat split. Qed.

(** C3, as stated, fails: with the cursor at 1 a full turn over three
    members starts at the second member, so the members do not come back
    in insertion order. *)
Lemma C3_turn_from_cursor_one_is_rotated :
  fst (getProxy_times 3 pool_of_three_turned)
  <> map RProxy (availableProxies pool_of_three_turned).
Proof. vm_compute. discriminate. Qed.

(** C3, amended: on a pool of N > 0 members with the cursor inside the
    array, N calls of [getProxy] return every member exactly once, in
    insertion order taken cyclically from the member under the cursor (so
    in plain insertion order when the cursor is 0), leave the state as it
    was, and call N+1 returns the same member as call 1; on an empty pool
    [getProxy] returns [null]. *)
Theorem C3_round_robin_turn (st : ProxyPool) :
  (availableProxies st = [] -> getProxy st = (RNull, st))
  /\ ((currentIndex st < List.length (availableProxies st))%nat ->
      let l := availableProxies st in
      let c := currentIndex st in
      let turn := getProxy_times (List.length l) st in
      fst turn = map RProxy (skipn c l ++ firstn c l)
      /\ Permutation (skipn c l ++ firstn c l) l
      /\ (c = 0%nat -> fst turn = map RProxy l)
      /\ snd turn = st
      /\ fst (getProxy (snd turn)) = hd RNull (fst turn)).
Proof.
  split; [apply getProxy_empty|].
  intros Hc l c turn. subst turn l c.
  rewrite (getProxy_full_turn st Hc). cbn [fst snd].
  split; [reflexivity|]. split; [|split; [|split]].
  - rewrite Permutation_app_comm. now rewrite firstn_skipn.
  - intros ->. simpl. now rewrite app_nil_r.
  - reflexivity.
  - destruct (nth_error (availableProxies st) (currentIndex st)) as [x|] eqn:Hx;
      [|apply nth_error_None in Hx; lia].
    rewrite (skipn_cons_nth _ _ _ Hx). simpl.
    rewrite <- (set_index_same st) at 1.
    now rewrite (getProxy_at st _ x Hx).
Qed.

(** A turn from cursor 1 and a turn from cursor 0 over three members. *)
Lemma C3_round_robin_turn_witness :
  fst (getProxy_times 3 pool_of_three_turned) =
  map RProxy (skipn 1 (availableProxies pool_of_three_turned)
              ++ firstn 1 (availableProxies pool_of_three_turned))
  /\ fst (getProxy_times 3 pool_of_three) = map RProxy (availableProxies pool_of_three).
Proof.
  split.
  - apply (C3_round_robin_turn pool_of_three_turned). vm_compute. lia.
  - apply (C3_round_robin_turn pool_of_three); [vm_compute; lia | reflexivity].
Defined.

(** ** What each method leaves alone *)

Section Frames.

Variable now : nat -> Z.
Variable listing : nat -> Z -> AxiosResult.
Variable probe : nat -> string -> AxiosResult.

Lemma only_tick_refl (st : ProxyPool) : only_tick st st.
Proof. repeat split. Qed.

Lemma only_tick_trans (a b c : ProxyPool) :
  only_tick a b -> only_tick b c -> only_tick a c.
Proof. unfold only_tick. intuition congruence. Qed.

Lemma only_tick_advance (st : ProxyPool) : only_tick st (advance st).
Proof. repeat split. Qed.

Lemma keeps_control_refl (st : ProxyPool) : keeps_control st st.
Proof. repeat split. Qed.

Lemma keeps_control_trans (a b c : ProxyPool) :
  keeps_control a b -> keeps_control b c -> keeps_control a c.
Proof. unfold keeps_control. intuition congruence. Qed.

Lemma only_tick_keeps_control (a b : ProxyPool) : only_tick a b -> keeps_control a b.
Proof. unfold only_tick, keeps_control. intuition. Qed.

Lemma cache_set_keeps (k : string) (v : bool) (st : ProxyPool) :
  keeps_control st (cache_set now k v st)
  /\ availableProxies (cache_set now k v st) = availableProxies st.
Proof. repeat split. Qed.

Lemma probe_one_only_tick (proxy : string) (st : ProxyPool) :
  only_tick st (snd (probe_one probe proxy st)).
Proof. repeat split. Qed.

Lemma test_one_only_tick (proxy : string) (st : ProxyPool) :
  only_tick st (snd (test_one now probe proxy st)).
Proof.
  unfold test_one. destruct (useCache (cfg st)); [|apply probe_one_only_tick].
  destruct (map_get proxy (proxyCache st)); [|apply probe_one_only_tick].
  unfold read_clock.
  destruct (now (tick st) - timestamp c <? cacheExpiry (cfg (advance st)));
    repeat split.
Qed.

Lemma test_batch_only_tick (batch : list string) (st : ProxyPool) :
  only_tick st (snd (test_batch now probe batch st)).
Proof.
  revert st. induction batch as [|proxy rest IH]; intros st; simpl.
  - apply only_tick_refl.
  - pose proof (test_one_only_tick proxy st) as H1.
    destruct (test_one now probe proxy st) as [r st1].
    pose proof (IH st1) as H2.
    destruct (test_batch now probe rest st1) as [rs st2].
    simpl in *. eapply only_tick_trans; eassumption.
Qed.

Lemma test_chunks_only_tick (fuel : nat) (needed : Z) (todo : list string)
    (results : list TestResult) (st : ProxyPool) :
  only_tick st (snd (test_chunks now probe fuel needed todo results st)).
Proof.
  revert todo results st. induction fuel as [|fuel IH]; intros todo results st; simpl.
  - apply only_tick_refl.
  - destruct todo as [|p ps]; [apply only_tick_refl|].
    pose proof (test_batch_only_tick (firstn (chunk_size (cfg st)) (p :: ps)) st) as H1.
    destruct (test_batch now probe (firstn (chunk_size (cfg st)) (p :: ps)) st)
      as [batchResults st1].
    simpl in H1.
    destruct (successCount (results ++ batchResults) >=? needed); [exact H1|].
    eapply only_tick_trans; [exact H1|apply IH].
Qed.

Lemma testProxiesConcurrently_only_tick (proxies : list string) (st : ProxyPool) :
  only_tick st (snd (testProxiesConcurrently now probe proxies st)).
Proof. apply test_chunks_only_tick. Qed.

Lemma addValidProxies_keeps_control (results : list TestResult) (st : ProxyPool) :
  keeps_control st (addValidProxies now results st).
Proof.
  revert st. induction results as [|[proxy result] rest IH]; intros st; simpl.
  - apply keeps_control_refl.
  - destruct (truthy result).
    + destruct (ip_port proxy) as [i p].
      destruct (negb (is_member i p st)); [|apply IH].
      match goal with
      | |- keeps_control _ (if _ then ?s else _) =>
          assert (Hk : keeps_control st s)
            by (destruct (useCache (cfg st)); repeat split);
          destruct (size s >=? targetCount (cfg s)); [exact Hk|];
          eapply keeps_control_trans; [exact Hk|apply IH]
      end.
    + destruct (useCache (cfg st)); [|apply IH].
      eapply keeps_control_trans; [|apply IH]. repeat split.
Qed.

End Frames.

(** ** Membership and uniqueness *)

Lemma port_eqb_eq (a b : option string) : port_eqb a b = true <-> a = b.
Proof.
  destruct a as [x|], b as [y|]; simpl; try (split; congruence).
  rewrite String.eqb_eq. split; congruence.
Qed.

Lemma same_endpoint_key (i : string) (p : option string) (m : ProxyObj) :
  same_endpoint i p m = true <-> key_of m = (i, p).
Proof.
  unfold same_endpoint, key_of.
  rewrite andb_true_iff, String.eqb_eq, port_eqb_eq. split.
  - intros [-> ->]. reflexivity.
  - intros H. now inversion H.
Qed.

Lemma existsb_same_endpoint (i : string) (p : option string) (l : list ProxyObj) :
  existsb (same_endpoint i p) l = true <-> In (i, p) (map key_of l).
Proof.
  rewrite existsb_exists, in_map_iff. split.
  - intros [m [Hin Hs]]. exists m. split; [now apply same_endpoint_key|exact Hin].
  - intros [m [Hk Hin]]. exists m. split; [exact Hin|now apply same_endpoint_key].
Qed.

Lemma NoDup_keys_snoc (l : list ProxyObj) (m : ProxyObj) :
  NoDup (map key_of l) -> ~ In (key_of m) (map key_of l) ->
  NoDup (map key_of (l ++ [m])).
Proof.
  intros Hnd Hnin. rewrite map_app. simpl.
  apply NoDup_app; [exact Hnd | repeat constructor; intros [] |].
  intros k Hk [<-|[]]. now apply Hnin.
Qed.

Lemma NoDup_keys_filter (f : ProxyObj -> bool) (l : list ProxyObj) :
  NoDup (map key_of l) -> NoDup (map key_of (filter f l)).
Proof.
  induction l as [|m l IH]; simpl; intros Hnd; [constructor|].
  inversion Hnd as [|k ks Hnin Hnd']; subst.
  destruct (f m); [|now apply IH].
  simpl. constructor; [|now apply IH].
  intros Hin. apply Hnin. apply in_map_iff in Hin as [m' [Hk Hin]].
  apply filter_In in Hin as [Hin _]. apply in_map_iff. eauto.
Qed.

(** Removing an endpoint from a duplicate-free list drops exactly the one
    member that carries it. *)
Lemma filter_out_endpoint_length (i : string) (p : option string) (l : list ProxyObj) :
  NoDup (map key_of l) ->
  existsb (same_endpoint i p) l = true ->
  S (List.length (filter (fun m => negb (same_endpoint i p m)) l)) = List.length l.
Proof.
  induction l as [|m l IH]; simpl; intros Hnd Hex; [discriminate|].
  inversion Hnd as [|k ks Hnin Hnd']; subst.
  destruct (same_endpoint i p m) eqn:Hs; simpl.
  - f_equal. apply same_endpoint_key in Hs.
    assert (Hall : forall x, In x l -> negb (same_endpoint i p x) = true).
    { intros x Hx. destruct (same_endpoint i p x) eqn:Hsx; [|reflexivity].
      apply same_endpoint_key in Hsx. exfalso. apply Hnin.
      rewrite Hs, <- Hsx. now apply in_map. }
    clear -Hall. induction l as [|x l IH]; simpl; [reflexivity|].
    rewrite (Hall x) by now left. simpl. f_equal. apply IH.
    intros y Hy. apply Hall. now right.
  - f_equal. now apply IH.
Qed.

Lemma filter_out_absent_endpoint (i : string) (p : option string) (l : list ProxyObj) :
  existsb (same_endpoint i p) l = false ->
  filter (fun m => negb (same_endpoint i p m)) l = l.
Proof.
  induction l as [|m l IH]; simpl; intros Hex; [reflexivity|].
  apply orb_false_iff in Hex as [Hm Hl]. rewrite Hm. simpl. f_equal. now apply IH.
Qed.

Section Adding.

Variable now : nat -> Z.

Lemma addValidProxies_unique (results : list TestResult) (st : ProxyPool) :
  unique_endpoints st -> unique_endpoints (addValidProxies now results st).
Proof.
  revert st. induction results as [|[proxy result] rest IH]; intros st Hu; simpl.
  - exact Hu.
  - destruct (truthy result).
    + destruct (ip_port proxy) as [i p].
      destruct (negb (is_member i p st)) eqn:Hm; [|now apply IH].
      apply negb_true_iff in Hm.
      match goal with
      | |- unique_endpoints (if _ then ?s else _) =>
          assert (Hs : unique_endpoints s)
      end.
      { assert (Hn : NoDup (map key_of
                   (availableProxies st ++
                    [{| ip := i; port := p; protocol := proxyProtocol (cfg st);
                        full := (proxyProtocol (cfg st) ++ "://" ++ proxy)%string;
                        addedAt := now (tick st) |}]))).
        { apply NoDup_keys_snoc; [exact Hu|]. simpl. unfold key_of at 1. simpl.
          intros Hin. apply existsb_same_endpoint in Hin.
          unfold is_member in Hm. congruence. }
        unfold unique_endpoints. destruct (useCache (cfg st)); exact Hn. }
      match goal with
      | |- unique_endpoints (if ?c then _ else _) => destruct c
      end; [exact Hs | now apply IH].
    + destruct (useCache (cfg st)); now apply IH.
Qed.

Lemma addValidProxies_length_mono (results : list TestResult) (st : ProxyPool) :
  (List.length (availableProxies st)
   <= List.length (availableProxies (addValidProxies now results st)))%nat.
Proof.
  revert st. induction results as [|[proxy result] rest IH]; intros st; simpl.
  - lia.
  - destruct (truthy result).
    + destruct (ip_port proxy) as [i p].
      destruct (negb (is_member i p st)); [|apply IH].
      match goal with
      | |- (_ <= List.length (availableProxies (if _ then ?s else _)))%nat =>
          assert (Hs : List.length (availableProxies s)
                       = S (List.length (availableProxies st)))
            by (destruct (useCache (cfg st)); simpl; rewrite length_app; simpl; lia);
          destruct (size s >=? targetCount (cfg s)); [lia|];
          etransitivity; [|apply IH]; lia
      end.
    + destruct (useCache (cfg st)); (etransitivity; [|apply IH]); simpl; lia.
Qed.

(** Admitting a candidate whose endpoint is already a member changes
    nothing at all. *)
Lemma addValidProxies_duplicate (proxy : string) (result : JsVal) (st : ProxyPool) :
  truthy result = true ->
  is_member (fst (ip_port proxy)) (snd (ip_port proxy)) st = true ->
  addValidProxies now [(proxy, result)] st = st.
Proof.
  intros Ht Hm. simpl. rewrite Ht.
  destruct (ip_port proxy) as [i p]. simpl in Hm. now rewrite Hm.
Qed.

(** Results that only name members leave the member list alone. *)
Lemma addValidProxies_members_only (results : list TestResult) (st : ProxyPool) :
  (forall r, In r results ->
     existsb (same_endpoint (fst (ip_port (fst r))) (snd (ip_port (fst r))))
       (availableProxies st) = true) ->
  availableProxies (addValidProxies now results st) = availableProxies st.
Proof.
  revert st. induction results as [|[proxy result] rest IH]; intros st Hall; simpl.
  - reflexivity.
  - pose proof (Hall (proxy, result) (or_introl eq_refl)) as Hm. simpl in Hm.
    assert (Hrest : forall r, In r rest ->
               existsb (same_endpoint (fst (ip_port (fst r))) (snd (ip_port (fst r))))
                 (availableProxies st) = true)
      by (intros r Hr; apply Hall; now right).
    destruct (truthy result).
    + destruct (ip_port proxy) as [i p]. unfold is_member. simpl in Hm.
      rewrite Hm. simpl. now apply IH.
    + destruct (useCache (cfg st)); [|now apply IH].
      rewrite (IH (cache_set now proxy false st)); [reflexivity|exact Hrest].
Qed.

End Adding.

(** ** Removal *)

Section Removal.

Variable now : nat -> Z.

Lemma checkAndRefill_start_frame (st : ProxyPool) :
  availableProxies (checkAndRefill_start st) = availableProxies st
  /\ currentIndex (checkAndRefill_start st) = currentIndex st
  /\ proxyCache (checkAndRefill_start st) = proxyCache st
  /\ cfg (checkAndRefill_start st) = cfg st.
Proof.
  unfold checkAndRefill_start.
  destruct ((size st <=? minThreshold (cfg st)) && negb (isRefilling st))%bool;
    [destruct (reaches_await st)|]; repeat split.
Qed.

Lemma removeProxy_proxies (i : string) (p : PortArg) (st : ProxyPool) :
  availableProxies (snd (removeProxy now i p st)) = without i p (availableProxies st).
Proof.
  unfold removeProxy. cbn [snd].
  rewrite (proj1 (checkAndRefill_start_frame _)).
  match goal with
  | |- availableProxies (if ?c then _ else _) = _ => destruct c
  end; simpl;
  destruct (find (same_endpoint i (Some (port_toString p))) (availableProxies st));
  try destruct (useCache (cfg st)); reflexivity.
Qed.

Lemma removeProxy_removed (i : string) (p : PortArg) (st : ProxyPool) :
  fst (removeProxy now i p st) =
  Nat.ltb (List.length (without i p (availableProxies st)))
          (List.length (availableProxies st)).
Proof.
  unfold removeProxy. cbn [fst].
  match goal with
  | |- Nat.ltb (List.length (availableProxies (if ?c then _ else _))) _ = _ =>
      destruct c
  end; simpl;
  destruct (find (same_endpoint i (Some (port_toString p))) (availableProxies st));
  try destruct (useCache (cfg st)); reflexivity.
Qed.

Lemma removeProxy_index (i : string) (p : PortArg) (st : ProxyPool) :
  currentIndex (snd (removeProxy now i p st)) =
  if (Nat.leb (List.length (without i p (availableProxies st))) (currentIndex st)
      && Nat.ltb 0 (List.length (without i p (availableProxies st))))%bool
  then 0%nat else currentIndex st.
Proof.
  unfold removeProxy. cbn [snd].
  rewrite (proj1 (proj2 (checkAndRefill_start_frame _))).
  destruct (find (same_endpoint i (Some (port_toString p))) (availableProxies st));
  try destruct (useCache (cfg st)); simpl;
  fold (without i p (availableProxies st));
  destruct (Nat.leb (List.length (without i p (availableProxies st))) (currentIndex st)
            && Nat.ltb 0 (List.length (without i p (availableProxies st))))%bool;
  reflexivity.
Qed.

Lemma removeProxy_absent_cache (i : string) (p : PortArg) (st : ProxyPool) :
  is_member i (Some (port_toString p)) st = false ->
  proxyCache (snd (removeProxy now i p st)) = proxyCache st
  /\ tick (snd (removeProxy now i p st)) = tick st.
Proof.
  intros Hm. unfold removeProxy. cbn [snd].
  assert (Hf : find (same_endpoint i (Some (port_toString p))) (availableProxies st) = None).
  { destruct (find _ _) eqn:Hf; [|reflexivity].
    apply find_some in Hf as [Hin Hs].
    unfold is_member in Hm.
    assert (existsb (same_endpoint i (Some (port_toString p))) (availableProxies st) = true)
      by (apply existsb_exists; eauto).
    congruence. }
  rewrite Hf.
  unfold checkAndRefill_start.
  repeat match goal with
         | |- context [if ?c then _ else _] => destruct c
         end; split; reflexivity.
Qed.

(** The cursor after a removal is inside the array whenever the array is
    not empty. *)
Lemma removeProxy_cursor (i : string) (p : PortArg) (st : ProxyPool) :
  (0 < List.length (availableProxies (snd (removeProxy now i p st))))%nat ->
  (currentIndex (snd (removeProxy now i p st))
   < List.length (availableProxies (snd (removeProxy now i p st))))%nat.
Proof.
  rewrite removeProxy_index, removeProxy_proxies. intros Hpos.
  destruct (Nat.leb (List.length (without i p (availableProxies st))) (currentIndex st))
    eqn:Hle; simpl.
  - destruct (Nat.ltb 0 (List.length (without i p (availableProxies st)))) eqn:Hlt.
    + exact Hpos.
    + apply Nat.ltb_ge in Hlt. lia.
  - apply Nat.leb_gt in Hle. exact Hle.
Qed.

End Removal.

(** C6: on a pool without duplicate endpoints, [removeProxy] of a member
    returns [true], shrinks the pool by exactly one and leaves the cursor
    inside a non-empty pool; [removeProxy] of a non-member returns [false]
    and leaves the members (and the cache) as they were. *)
Theorem C6_removeProxy_correct (now : nat -> Z) (i : string) (p : PortArg)
    (st : ProxyPool) :
  unique_endpoints st ->
  let removed := fst (removeProxy now i p st) in
  let st' := snd (removeProxy now i p st) in
  (is_member i (Some (port_toString p)) st = true ->
     removed = true
     /\ S (List.length (availableProxies st')) = List.length (availableProxies st)
     /\ is_member i (Some (port_toString p)) st' = false
     /\ ((0 < List.length (availableProxies st'))%nat ->
         (currentIndex st' < List.length (availableProxies st'))%nat))
  /\ (is_member i (Some (port_toString p)) st = false ->
     removed = false
     /\ availableProxies st' = availableProxies st
     /\ proxyCache st' = proxyCache st).
Proof.
  intros Hu removed st'. subst removed st'. split; intros Hm.
  - pose proof (filter_out_endpoint_length i (Some (port_toString p))
                  (availableProxies st) Hu Hm) as Hlen.
    fold (without i p (availableProxies st)) in Hlen.
    rewrite removeProxy_removed, removeProxy_proxies.
    split; [apply Nat.ltb_lt; lia|]. split; [exact Hlen|]. split.
    + unfold is_member. rewrite removeProxy_proxies.
      destruct (existsb _ _) eqn:Hex; [|reflexivity].
      apply existsb_exists in Hex as [m [Hin Hs]].
      apply filter_In in Hin as [_ Hneg]. rewrite Hs in Hneg. discriminate.
    + rewrite <- (removeProxy_proxies now). apply removeProxy_cursor.
  - pose proof (filter_out_absent_endpoint i (Some (port_toString p))
                  (availableProxies st) Hm) as Hsame.
    fold (without i p (availableProxies st)) in Hsame.
    rewrite removeProxy_removed, removeProxy_proxies, Hsame.
    split; [apply Nat.ltb_irrefl|]. split; [reflexivity|].
    now apply removeProxy_absent_cache.
Qed.

(** Removing a member by numeric port, and removing a stranger. *)
Lemma C6_removeProxy_correct_witness :
  fst (removeProxy frozen_clock "2.2.2.2" (PortNum 8080) pool_of_three_turned) = true
  /\ fst (removeProxy frozen_clock "9.9.9.9" (PortStr "1") pool_of_three_turned) = false.
Proof.
  assert (Hu : unique_endpoints pool_of_three_turned)
    by (vm_compute; repeat constructor; simpl; intuition discriminate).
  split.
  - apply (C6_removeProxy_correct frozen_clock "2.2.2.2" (PortNum 8080)
             pool_of_three_turned Hu).
    reflexivity.
  - apply (C6_removeProxy_correct frozen_clock "9.9.9.9" (PortStr "1")
             pool_of_three_turned Hu).
    reflexivity.
Defined.

(** ** The refill cycle touches the members only through admission *)

Section Cycle.

Variable now : nat -> Z.
Variable listing : nat -> Z -> AxiosResult.
Variable probe : nat -> string -> AxiosResult.

Lemma tryUsingCachedProxies_shape (needed : Z) (st : ProxyPool) :
  ticked_or_added now probe st (tryUsingCachedProxies now probe needed st).
Proof.
  unfold tryUsingCachedProxies, read_clock.
  destruct (collect_cached (cfg (advance st)) (now (tick st)) needed
              (proxyCache (advance st)) []) as [|k ks].
  - left. apply only_tick_advance.
  - right. exists (k :: ks), (advance st). split; [apply only_tick_advance|].
    now destruct (testProxiesConcurrently now probe (k :: ks) (advance st)).
Qed.

Lemma refill_attempt_shape (st : ProxyPool) :
  ticked_or_added now probe st (snd (refill_attempt now listing probe st)).
Proof.
  unfold refill_attempt.
  destruct (length_is_zero _) as [[|]|];
    try (left; apply only_tick_advance).
  destruct (filterExistingProxies _ (advance st)) as [[|p ps]|];
    try (left; apply only_tick_advance).
  right. exists (p :: ps), (advance st). split; [apply only_tick_advance|].
  destruct (testProxiesConcurrently now probe (p :: ps) (advance st)) as [results st2].
  now destruct (size (addValidProxies now results st2)
                >=? targetCount (cfg (addValidProxies now results st2))).
Qed.

Lemma ticked_or_added_keeps_control (st st' : ProxyPool) :
  ticked_or_added now probe st st' -> keeps_control st st'.
Proof.
  intros [H|[proxies [st0 [H0 ->]]]].
  - now apply only_tick_keeps_control.
  - eapply keeps_control_trans; [apply only_tick_keeps_control; exact H0|].
    eapply keeps_control_trans;
      [apply only_tick_keeps_control;
       apply (testProxiesConcurrently_only_tick now probe proxies st0)|].
    apply addValidProxies_keeps_control.
Qed.

Lemma refill_attempt_keeps_control (st : ProxyPool) :
  keeps_control st (snd (refill_attempt now listing probe st)).
Proof. apply ticked_or_added_keeps_control, refill_attempt_shape. Qed.

Lemma refill_loop_keeps_control (fuel attempts : nat) (st : ProxyPool) :
  keeps_control st (snd (refill_loop now listing probe fuel attempts st)).
Proof.
  revert attempts st. induction fuel as [|fuel IH]; intros attempts st; simpl.
  - apply keeps_control_refl.
  - destruct ((size st <? targetCount (cfg st))
              && (Z.of_nat attempts <? maxRefillAttempts (cfg st)))%bool;
      [|apply keeps_control_refl].
    pose proof (refill_attempt_keeps_control st) as H.
    destruct (refill_attempt now listing probe st) as [[| |] st1]; simpl in *;
      try exact H.
    eapply keeps_control_trans; [exact H|apply IH].
Qed.

(** Any property of the member list that admission preserves survives a
    whole cycle. *)
Section Preserved.

Variable P : list ProxyObj -> Prop.
Hypothesis P_add : forall results st,
  P (availableProxies st) -> P (availableProxies (addValidProxies now results st)).

Lemma ticked_or_added_preserves (st st' : ProxyPool) :
  ticked_or_added now probe st st' -> P (availableProxies st) -> P (availableProxies st').
Proof.
  intros [H|[proxies [st0 [H0 ->]]]] HP.
  - destruct H as [_ [-> _]]. exact HP.
  - apply P_add.
    destruct (testProxiesConcurrently_only_tick now probe proxies st0) as [_ [-> _]].
    destruct H0 as [_ [-> _]]. exact HP.
Qed.

Lemma refill_loop_preserves (fuel attempts : nat) (st : ProxyPool) :
  P (availableProxies st) ->
  P (availableProxies (snd (refill_loop now listing probe fuel attempts st))).
Proof.
  revert attempts st. induction fuel as [|fuel IH]; intros attempts st HP; simpl.
  - exact HP.
  - destruct ((size st <? targetCount (cfg st))
              && (Z.of_nat attempts <? maxRefillAttempts (cfg st)))%bool;
      [|exact HP].
    pose proof (ticked_or_added_preserves _ _ (refill_attempt_shape st) HP) as H.
    destruct (refill_attempt now listing probe st) as [[| |] st1]; simpl in *;
      try exact H.
    now apply IH.
Qed.

Lemma refill_cycle_preserves (st : ProxyPool) :
  P (availableProxies st) ->
  P (availableProxies (snd (refill_cycle now listing probe st))).
Proof.
  intros HP. unfold refill_cycle.
  match goal with
  | |- context [refill_loop now listing probe ?f 0 ?s] =>
      assert (H1 : P (availableProxies s));
      [|pose proof (refill_loop_preserves f 0 s H1) as H2;
        destruct (refill_loop now listing probe f 0 s) as [[step attempts] st2]]
  end.
  - destruct (useCache (cfg st) && (0 <? Z.of_nat (List.length (proxyCache st))))%bool;
      [|exact HP].
    exact (ticked_or_added_preserves _ _ (tryUsingCachedProxies_shape _ st) HP).
  - exact H2.
Qed.

Lemma refillProxies_preserves (st : ProxyPool) :
  P (availableProxies st) ->
  P (availableProxies (snd (refillProxies now listing probe st))).
Proof.
  intros HP. unfold refillProxies. destruct (isRefilling st); [exact HP|].
  now apply refill_cycle_preserves.
Qed.

Lemma checkAndRefill_preserves (st : ProxyPool) :
  P (availableProxies st) ->
  P (availableProxies (checkAndRefill now listing probe st)).
Proof.
  intros HP. unfold checkAndRefill.
  destruct ((size st <=? minThreshold (cfg st)) && negb (isRefilling st))%bool;
    [now apply refillProxies_preserves|exact HP].
Qed.

End Preserved.

Lemma refill_cycle_keeps (st : ProxyPool) :
  cfg (snd (refill_cycle now listing probe st)) = cfg st
  /\ currentIndex (snd (refill_cycle now listing probe st)) = currentIndex st.
Proof.
  unfold refill_cycle.
  match goal with
  | |- context [refill_loop now listing probe ?f 0 ?s] =>
      assert (H1 : keeps_control st s);
      [|pose proof (refill_loop_keeps_control f 0 s) as H2;
        destruct (refill_loop now listing probe f 0 s) as [[step attempts] st2]]
  end.
  - destruct (useCache (cfg st) && (0 <? Z.of_nat (List.length (proxyCache st))))%bool;
      [|apply keeps_control_refl].
    apply ticked_or_added_keeps_control, tryUsingCachedProxies_shape.
  - simpl in *. destruct H1 as [H1a [H1b _]], H2 as [H2a [H2b _]].
    split; congruence.
Qed.

End Cycle.

(** ** The loops always run to their own exit

    Both loops are written with a fuel argument.  The fuel the callers
    pass is enough: giving more changes nothing, so no result is cut
    short by the fuel. *)

Section Fuel.

Variable now : nat -> Z.
Variable listing : nat -> Z -> AxiosResult.
Variable probe : nat -> string -> AxiosResult.

Lemma chunk_size_positive (c : Config) : (1 <= chunk_size c)%nat.
Proof. unfold chunk_size. lia. Qed.

Lemma test_chunks_enough_fuel (fuel extra : nat) (needed : Z) (todo : list string)
    (results : list TestResult) (st : ProxyPool) :
  (List.length todo <= fuel)%nat ->
  test_chunks now probe (fuel + extra) needed todo results st
  = test_chunks now probe fuel needed todo results st.
Proof.
  revert todo results st. induction fuel as [|fuel IH]; intros todo results st Hlen.
  - destruct todo; [|simpl in Hlen; lia]. now destruct extra.
  - destruct todo as [|p ps]; [reflexivity|].
    cbn [Nat.add test_chunks].
    destruct (test_batch now probe (firstn (chunk_size (cfg st)) (p :: ps)) st)
      as [batchResults st1].
    destruct (successCount (results ++ batchResults) >=? needed); [reflexivity|].
    apply IH. rewrite length_skipn. pose proof (chunk_size_positive (cfg st)).
    simpl in Hlen. cbn [List.length]. lia.
Qed.

Lemma refill_loop_enough_fuel (fuel extra attempts : nat) (st : ProxyPool) :
  maxRefillAttempts (cfg st) - Z.of_nat attempts <= Z.of_nat fuel ->
  refill_loop now listing probe (fuel + extra) attempts st
  = refill_loop now listing probe fuel attempts st.
Proof.
  revert attempts st. induction fuel as [|fuel IH]; intros attempts st Hle.
  - destruct extra; [reflexivity|]. cbn [Nat.add refill_loop].
    replace (Z.of_nat attempts <? maxRefillAttempts (cfg st)) with false
      by (symmetry; apply Z.ltb_ge; lia).
    now rewrite andb_false_r.
  - cbn [Nat.add refill_loop].
    destruct ((size st <? targetCount (cfg st))
              && (Z.of_nat attempts <? maxRefillAttempts (cfg st)))%bool;
      [|reflexivity].
    pose proof (refill_attempt_keeps_control now listing probe st) as [Hc _].
    destruct (refill_attempt now listing probe st) as [[| |] st1]; try reflexivity.
    apply IH. simpl in Hc. rewrite Hc. lia.
Qed.

(** The loop of a cycle stops for one of the reasons the source gives:
    the target is reached, the attempts are used up, or an exception left
    the [try] block. *)
Lemma refill_loop_exit (fuel attempts : nat) (st : ProxyPool) :
  maxRefillAttempts (cfg st) - Z.of_nat attempts <= Z.of_nat fuel ->
  let r := refill_loop now listing probe fuel attempts st in
  match fst (fst r) with
  | Throw => True
  | Break => size (snd r) >= targetCount (cfg st)
  | Continue =>
      size (snd r) >= targetCount (cfg st)
      \/ Z.of_nat (snd (fst r)) >= maxRefillAttempts (cfg st)
  end.
Proof.
  revert attempts st. induction fuel as [|fuel IH]; intros attempts st Hle; simpl.
  - right. lia.
  - assert (Hle' : maxRefillAttempts (cfg st) - Z.of_nat attempts - 1 <= Z.of_nat fuel)
      by lia.
    clear Hle.
    destruct (size st <? targetCount (cfg st)) eqn:H1; simpl.
    + destruct (Z.of_nat attempts <? maxRefillAttempts (cfg st)) eqn:H2.
      * pose proof (refill_attempt_keeps_control now listing probe st) as [Hc _].
        unfold refill_attempt in *.
        destruct (length_is_zero _) as [[|]|]; simpl in *; trivial.
        -- specialize (IH (S attempts) (advance st)). simpl in IH. apply IH. lia.
        -- destruct (filterExistingProxies _ (advance st)) as [[|p ps]|];
             simpl in *; trivial.
           ++ specialize (IH (S attempts) (advance st)). simpl in IH. apply IH. lia.
           ++ destruct (testProxiesConcurrently now probe (p :: ps) (advance st))
                as [results st2].
              destruct (size (addValidProxies now results st2)
                        >=? targetCount (cfg (addValidProxies now results st2))) eqn:H3;
                simpl in *.
              ** rewrite Hc in H3. rewrite Z.geb_leb in H3.
                 apply Z.leb_le in H3. lia.
              ** specialize (IH (S attempts) (addValidProxies now results st2)).
                 rewrite Hc in IH. apply IH. lia.
      * simpl. right. apply Z.ltb_ge in H2. lia.
    + left. apply Z.ltb_ge in H1. lia.
Qed.

End Fuel.

(** ** Invariants of every reachable state *)

Section Reachable.

Variable now : nat -> Z.
Variable listing : nat -> Z -> AxiosResult.
Variable probe : nat -> string -> AxiosResult.

Lemma getProxy_frame (st : ProxyPool) :
  availableProxies (snd (getProxy st)) = availableProxies st
  /\ cfg (snd (getProxy st)) = cfg st
  /\ proxyCache (snd (getProxy st)) = proxyCache st
  /\ isRefilling (snd (getProxy st)) = isRefilling st.
Proof. unfold getProxy. destruct (availableProxies st) eqn:H; simpl; auto. Qed.

Lemma cleanupCache_frame (st : ProxyPool) :
  availableProxies (cleanupCache now st) = availableProxies st
  /\ currentIndex (cleanupCache now st) = currentIndex st
  /\ cfg (cleanupCache now st) = cfg st
  /\ isRefilling (cleanupCache now st) = isRefilling st.
Proof. unfold cleanupCache. destruct (negb (useCache (cfg st))); simpl; auto. Qed.

Lemma step_unique (op : Op) (st : ProxyPool) :
  unique_endpoints st -> unique_endpoints (step now listing probe op st).
Proof.
  intros Hu. unfold unique_endpoints in *.
  assert (Hadd : forall results s,
             NoDup (map key_of (availableProxies s)) ->
             NoDup (map key_of (availableProxies (addValidProxies now results s))))
    by (intros; now apply addValidProxies_unique).
  destruct op; cbn [step].
  - now apply Hadd.
  - rewrite removeProxy_proxies. now apply NoDup_keys_filter.
  - now rewrite (proj1 (getProxy_frame st)).
  - now apply (refillProxies_preserves now listing probe
                 (fun l => NoDup (map key_of l)) Hadd).
  - destruct (isRefilling st); [|exact Hu].
    now apply (refill_cycle_preserves now listing probe
                 (fun l => NoDup (map key_of l)) Hadd).
  - now apply (checkAndRefill_preserves now listing probe
                 (fun l => NoDup (map key_of l)) Hadd).
  - now rewrite (proj1 (cleanupCache_frame st)).
  - exact Hu.
  - exact (ticked_or_added_preserves now probe (fun l => NoDup (map key_of l)) Hadd
             _ _ (tryUsingCachedProxies_shape now probe _ st) Hu).
  - exact (ticked_or_added_preserves now probe (fun l => NoDup (map key_of l)) Hadd
             _ _ (refill_attempt_shape now listing probe st) Hu).
Qed.

Lemma cursor_in_bounds_grow (st st' : ProxyPool) :
  cursor_in_bounds st ->
  currentIndex st' = currentIndex st ->
  (List.length (availableProxies st) <= List.length (availableProxies st'))%nat ->
  cursor_in_bounds st'.
Proof.
  unfold cursor_in_bounds. intros [Hlt|[Hnil H0]] Hc Hlen.
  - left. lia.
  - destruct (availableProxies st') as [|m l] eqn:Hl.
    + right. split; [reflexivity|congruence].
    + left. simpl. lia.
Qed.

Lemma ticked_or_added_cursor (st st' : ProxyPool) :
  ticked_or_added now probe st st' -> cursor_in_bounds st -> cursor_in_bounds st'.
Proof.
  intros Hsh Hc. apply (cursor_in_bounds_grow st); [exact Hc| |].
  - apply (ticked_or_added_keeps_control now probe _ _ Hsh).
  - assert (Hadd : forall results s,
               (List.length (availableProxies st) <= List.length (availableProxies s))%nat ->
               (List.length (availableProxies st)
                <= List.length (availableProxies (addValidProxies now results s)))%nat).
    { intros results s Hs. etransitivity; [exact Hs|].
      apply addValidProxies_length_mono. }
    exact (ticked_or_added_preserves now probe
             (fun l => (List.length (availableProxies st) <= List.length l)%nat)
             Hadd st st' Hsh (le_n _)).
Qed.

Lemma refill_cycle_cursor (st : ProxyPool) :
  cursor_in_bounds st -> cursor_in_bounds (snd (refill_cycle now listing probe st)).
Proof.
  intros Hc. apply (cursor_in_bounds_grow st); [exact Hc| |].
  - apply refill_cycle_keeps.
  - apply (refill_cycle_preserves now listing probe
             (fun l => (List.length (availableProxies st) <= List.length l)%nat)).
    + intros results s Hs. etransitivity; [exact Hs|].
      apply addValidProxies_length_mono.
    + lia.
Qed.

Lemma step_cursor (op : Op) (st : ProxyPool) :
  unique_endpoints st -> cursor_in_bounds st ->
  cursor_in_bounds (step now listing probe op st).
Proof.
  intros Hu Hc. destruct op; cbn [step].
  - apply (cursor_in_bounds_grow st); [exact Hc| |].
    + apply addValidProxies_keeps_control.
    + apply addValidProxies_length_mono.
  - unfold cursor_in_bounds.
    destruct (availableProxies (snd (removeProxy now i p st))) as [|m l] eqn:Hl.
    + right. split; [reflexivity|].
      rewrite removeProxy_index. rewrite removeProxy_proxies in Hl.
      rewrite Hl. simpl.
      destruct (is_member i (Some (port_toString p)) st) eqn:Hm.
      * pose proof (filter_out_endpoint_length _ _ _ Hu Hm) as Hlen.
        fold (without i p (availableProxies st)) in Hlen. rewrite Hl in Hlen.
        simpl in Hlen. destruct Hc as [Hlt|[_ H0]]; lia.
      * pose proof (filter_out_absent_endpoint _ _ _ Hm) as Hsame.
        fold (without i p (availableProxies st)) in Hsame. rewrite Hl in Hsame.
        destruct Hc as [Hlt|[_ H0]]; [|exact H0].
        rewrite <- Hsame in Hlt. simpl in Hlt. lia.
    + left. rewrite <- Hl. apply removeProxy_cursor. rewrite Hl. simpl. lia.
  - unfold cursor_in_bounds, getProxy.
    destruct (availableProxies st) as [|m l] eqn:Hl;
      unfold set_index; cbn [snd currentIndex availableProxies].
    + right. destruct Hc as [Hlt|[_ H0]]; [rewrite Hl in Hlt; simpl in Hlt; lia|].
      now split.
    + left. rewrite Hl. apply Nat.mod_upper_bound. discriminate.
  - unfold refillProxies. destruct (isRefilling st) eqn:Hr; [exact Hc|].
    apply refill_cycle_cursor. exact Hc.
  - destruct (isRefilling st); [|exact Hc]. now apply refill_cycle_cursor.
  - unfold checkAndRefill, refillProxies.
    destruct ((size st <=? minThreshold (cfg st)) && negb (isRefilling st))%bool;
      [|exact Hc].
    destruct (isRefilling st); [exact Hc|].
    apply refill_cycle_cursor. exact Hc.
  - unfold cursor_in_bounds.
    destruct (cleanupCache_frame st) as [-> [-> _]]. exact Hc.
  - exact Hc.
  - exact (ticked_or_added_cursor _ _ (tryUsingCachedProxies_shape now probe _ st) Hc).
  - exact (ticked_or_added_cursor _ _ (refill_attempt_shape now listing probe st) Hc).
Qed.

Lemma run_invariants (ops : list Op) (st : ProxyPool) :
  unique_endpoints st -> cursor_in_bounds st ->
  unique_endpoints (run now listing probe ops st)
  /\ cursor_in_bounds (run now listing probe ops st).
Proof.
  revert st. induction ops as [|op ops IH]; intros st Hu Hc; simpl.
  - now split.
  - apply IH; [now apply step_unique | now apply step_cursor].
Qed.

Lemma new_ProxyPool_invariants (c : Config) :
  unique_endpoints (new_ProxyPool c) /\ cursor_in_bounds (new_ProxyPool c).
Proof. split; [constructor | right; now split]. Qed.

(** In every state a fresh manager can reach, the cursor of a non-empty
    pool points at a member. *)
Lemma reachable_cursor_inside (c : Config) (ops : list Op) :
  availableProxies (run now listing probe ops (new_ProxyPool c)) <> [] ->
  (currentIndex (run now listing probe ops (new_ProxyPool c))
   < List.length (availableProxies (run now listing probe ops (new_ProxyPool c))))%nat.
Proof.
  intros Hne.
  destruct (run_invariants ops (new_ProxyPool c)) as [_ [Hlt|[Hnil _]]];
    try apply new_ProxyPool_invariants; [exact Hlt|contradiction].
Qed.

End Reachable.

(** C2: whatever sequence of admissions, removals, refill cycles and other
    calls a fresh manager goes through, no two members share [(ip, port)];
    and admitting a valid candidate whose endpoint is already a member
    leaves the manager exactly as it was. *)
Theorem C2_unique_endpoints (now : nat -> Z) (listing : nat -> Z -> AxiosResult)
    (probe : nat -> string -> AxiosResult) (c : Config) :
  (forall ops : list Op,
      NoDup (map key_of (availableProxies (run now listing probe ops (new_ProxyPool c)))))
  /\ (forall (st : ProxyPool) (proxy : string) (result : JsVal),
         In (ip_port proxy) (map key_of (availableProxies st)) ->
         availableProxies (addValidProxies now [(proxy, result)] st) = availableProxies st
         /\ (truthy result = true -> addValidProxies now [(proxy, result)] st = st)).
Proof.
  split.
  - intros ops.
    apply (run_invariants now listing probe ops (new_ProxyPool c));
      apply new_ProxyPool_invariants.
  - intros st proxy result Hin.
    assert (Hm : is_member (fst (ip_port proxy)) (snd (ip_port proxy)) st = true).
    { unfold is_member. apply existsb_same_endpoint. now destruct (ip_port proxy). }
    split.
    + apply addValidProxies_members_only. intros r [<-|[]]. exact Hm.
    + intros Ht. now apply addValidProxies_duplicate.
Qed.

(** A second raw string for the endpoint 2.2.2.2:8080 is not admitted. *)
Lemma C2_unique_endpoints_witness :
  addValidProxies frozen_clock [("2.2.2.2:8080:again", JBool true)] pool_of_three
  = pool_of_three.
Proof.
  apply (C2_unique_endpoints frozen_clock (fun _ _ => Rejected) (fun _ _ => Rejected)
           default_config).
  - vm_compute. right. left. reflexivity.
  - reflexivity.
Defined.

(** ** The orchestrator *)

Section Orchestrator.

Variable now : nat -> Z.
Variable listing : nat -> Z -> AxiosResult.
Variable probe : nat -> string -> AxiosResult.

Lemma refill_cycle_ends_idle (st : ProxyPool) :
  isRefilling (snd (refill_cycle now listing probe st)) = false.
Proof.
  unfold refill_cycle.
  match goal with
  | |- context [refill_loop now listing probe ?f 0 ?s] =>
      destruct (refill_loop now listing probe f 0 s) as [[step attempts] st2]
  end.
  reflexivity.
Qed.

Lemma refillProxies_busy (st : ProxyPool) :
  isRefilling st = true ->
  refillProxies now listing probe st = ({| attempts_made := 0; caught := false |}, st).
Proof. unfold refillProxies. now intros ->. Qed.

Lemma refillProxies_ends_idle (st : ProxyPool) :
  isRefilling st = false ->
  isRefilling (snd (refillProxies now listing probe st)) = false.
Proof.
  unfold refillProxies. intros ->. apply refill_cycle_ends_idle.
Qed.

(** With an empty batch on every request, each pass of the loop is a
    [continue] that moves nothing but the tick. *)
Lemma refill_attempt_empty_batch (st : ProxyPool) :
  (forall t count, getProxiesFromProvider (listing t count) = JArr []) ->
  refill_attempt now listing probe st = (Continue, advance st).
Proof. intros He. unfold refill_attempt. now rewrite He. Qed.

Lemma refill_loop_empty_batches (fuel attempts : nat) (st : ProxyPool) :
  (forall t count, getProxiesFromProvider (listing t count) = JArr []) ->
  size st < targetCount (cfg st) ->
  Z.of_nat attempts + Z.of_nat fuel = maxRefillAttempts (cfg st) ->
  fst (refill_loop now listing probe fuel attempts st) = (Continue, (attempts + fuel)%nat)
  /\ only_tick st (snd (refill_loop now listing probe fuel attempts st)).
Proof.
  intros He. revert attempts st.
  induction fuel as [|fuel IH]; intros attempts st Hsz Hmax; simpl.
  - rewrite Nat.add_0_r. split; [reflexivity|apply only_tick_refl].
  - assert (Hc : ((size st <? targetCount (cfg st))
                  && (Z.of_nat attempts <? maxRefillAttempts (cfg st)))%bool = true).
    { apply andb_true_iff. split; apply Z.ltb_lt; lia. }
    rewrite Hc, (refill_attempt_empty_batch st He).
    destruct (IH (S attempts) (advance st)) as [H1 H2]; [exact Hsz|simpl cfg; lia|].
    rewrite H1. split; [f_equal; lia|].
    eapply only_tick_trans; [apply only_tick_advance|exact H2].
Qed.



(** The timer's tick on a manager that is refilling does nothing. *)
Lemma checkAndRefill_busy (st : ProxyPool) :
  isRefilling st = true -> checkAndRefill now listing probe st = st.
Proof.
  intros Hb. unfold checkAndRefill. rewrite Hb. simpl. now rewrite andb_false_r.
Qed.

(** Why a cycle ended. *)
Lemma refill_cycle_exit (st : ProxyPool) :
  caught (fst (refill_cycle now listing probe st)) = true
  \/ size (snd (refill_cycle now listing probe st)) >= targetCount (cfg st)
  \/ Z.of_nat (attempts_made (fst (refill_cycle now listing probe st)))
       >= maxRefillAttempts (cfg st).
Proof.
  unfold refill_cycle.
  match goal with
  | |- context [refill_loop now listing probe ?f 0 ?s] =>
      assert (Hc : cfg s = cfg st);
      [|pose proof (refill_loop_exit now listing probe f 0 s) as Hx;
        destruct (refill_loop now listing probe f 0 s) as [[step attempts] st2]]
  end.
  - destruct (useCache (cfg st) && (0 <? Z.of_nat (List.length (proxyCache st))))%bool;
      [|reflexivity].
    apply (ticked_or_added_keeps_control now probe), tryUsingCachedProxies_shape.
  - rewrite Hc in Hx. simpl in *.
    change (size (set_refilling false st2)) with (size st2).
    destruct step.
    + right. apply Hx. lia.
    + right. left. apply Hx. lia.
    + now left.
Qed.


End Orchestrator.

(** C1: a call of [refillProxies] on a manager that is already refilling
    returns at once and changes nothing, neither members nor cache nor any
    counter; every other call, whatever the listing service, the probes and
    the clock do, ends with [isRefilling] back to [false], and it ends for
    one of three reasons: an exception was caught, the target is reached,
    or the attempts are used up. *)
Theorem C1_single_flight_and_idle (now : nat -> Z) (listing : nat -> Z -> AxiosResult)
    (probe : nat -> string -> AxiosResult) (st : ProxyPool) :
  (isRefilling st = true ->
     refillProxies now listing probe st = ({| attempts_made := 0; caught := false |}, st))
  /\ (isRefilling st = false ->
      isRefilling (snd (refillProxies now listing probe st)) = false
      /\ (caught (fst (refillProxies now listing probe st)) = true
          \/ size (snd (refillProxies now listing probe st)) >= targetCount (cfg st)
          \/ Z.of_nat (attempts_made (fst (refillProxies now listing probe st)))
               >= maxRefillAttempts (cfg st))).
Proof.
  split; [apply refillProxies_busy|].
  intros Hidle. split; [now apply refillProxies_ends_idle|].
  unfold refillProxies. rewrite Hidle.
  apply (refill_cycle_exit now listing probe (set_refilling true st)).
Qed.

(** A call on a busy manager, and a cycle abandoned on a TypeError. *)
Lemma C1_single_flight_and_idle_witness :
  snd (refillProxies frozen_clock listing_of_three good_probe
         (set_refilling true pool_of_three)) = set_refilling true pool_of_three
  /\ isRefilling (snd (refillProxies frozen_clock broken_listing good_probe
                         (new_ProxyPool default_config))) = false.
Proof.
  split.
  - rewrite (proj1 (C1_single_flight_and_idle frozen_clock listing_of_three good_probe
                      (set_refilling true pool_of_three)) eq_refl).
    reflexivity.
  - apply (C1_single_flight_and_idle frozen_clock broken_listing good_probe
             (new_ProxyPool default_config)).
    reflexivity.
Defined.

(** The three ways a cycle can end, each on a run. *)
Example cycle_reaches_target :
  let r := refillProxies frozen_clock listing_of_three good_probe
             (new_ProxyPool (with_target 3 default_config)) in
  fst r = {| attempts_made := 1; caught := false |}
  /\ size (snd r) = 3 /\ isRefilling (snd r) = false.
Proof. vm_compute. repeat split. Qed.

Example cycle_exhausts_attempts :
  let r := refillProxies frozen_clock listing_of_three dead_probe
             (new_ProxyPool (with_target 3 default_config)) in
  fst r = {| attempts_made := 20; caught := false |}
  /\ size (snd r) = 0 /\ isRefilling (snd r) = false.
Proof. vm_compute. repeat split. Qed.

Example cycle_abandoned_on_error :
  let r := refillProxies frozen_clock broken_listing good_probe
             (new_ProxyPool (with_target 3 default_config)) in
  fst r = {| attempts_made := 1; caught := true |}
  /\ size (snd r) = 0 /\ isRefilling (snd r) = false.
Proof. vm_compute. repeat split. Qed.

(** The member offered again in the second batch is filtered out before
    validation: the second pass issues one probe only. *)
Example cycle_filters_duplicates :
  let r := refillProxies frozen_clock listing_with_duplicate good_probe
             (new_ProxyPool (with_target 2 default_config)) in
  fst r = {| attempts_made := 2; caught := false |}
  /\ map key_of (availableProxies (snd r))
     = [("1.1.1.1", Some "8080"); ("4.4.4.4", Some "8080")]
  /\ filterExistingProxies (envelope_proxies ["1.1.1.1:8080"; "4.4.4.4:8080"]) (snd r)
     = Some [].
Proof. vm_compute. repeat split. Qed.



(** ** Cache expiry *)

Section Expiry.

Variable now : nat -> Z.
Variable probe : nat -> string -> AxiosResult.

(** A cached verdict as old as the time-to-live, or older, is not used:
    the candidate is probed, whatever the entry says. *)
Lemma test_one_expired_is_miss (proxy : string) (e : CacheEntry) (st : ProxyPool) :
  useCache (cfg st) = true ->
  map_get proxy (proxyCache st) = Some e ->
  now (tick st) - timestamp e >= cacheExpiry (cfg st) ->
  test_one now probe proxy st = probe_one probe proxy (advance st).
Proof.
  intros Hu Hg Hold. unfold test_one, read_clock. rewrite Hu, Hg. simpl cfg.
  destruct (now (tick st) - timestamp e <? cacheExpiry (cfg st)) eqn:Hf;
    [apply Z.ltb_lt in Hf; lia | reflexivity].
Qed.

(** The scan of the cache-first pass only picks fresh valid entries. *)
Lemma collect_cached_fresh (c : Config) (t needed : Z) (entries : Cache)
    (acc : list string) (k : string) :
  In k (collect_cached c t needed entries acc) ->
  In k acc \/ exists e, In (k, e) entries /\ t - timestamp e < cacheExpiry c
                                         /\ valid e = true.
Proof.
  revert acc. induction entries as [|[k' e'] rest IH]; intros acc Hin; simpl in Hin.
  - now left.
  - destruct ((t - timestamp e' <? cacheExpiry c) && valid e')%bool eqn:Hf.
    + apply andb_true_iff in Hf as [Hfresh Hvalid]. apply Z.ltb_lt in Hfresh.
      assert (Hacc : In k (acc ++ [k'])%list ->
                     In k acc \/ exists e, In (k, e) ((k', e') :: rest)
                                           /\ t - timestamp e < cacheExpiry c
                                           /\ valid e = true).
      { intros H. apply in_app_or in H as [H|[<-|[]]]; [now left|].
        right. exists e'. repeat split; trivial. now left. }
      destruct (Z.of_nat (List.length (acc ++ [k'])%list) >=? needed).
      * now apply Hacc.
      * apply IH in Hin as [H|[e [H1 H2]]]; [now apply Hacc|].
        right. exists e. split; [now right|exact H2].
    + apply IH in Hin as [H|[e [H1 H2]]]; [now left|].
      right. exists e. split; [now right|exact H2].
Qed.

(** The sweep drops what is strictly older than the time-to-live and
    keeps everything else. *)
Lemma cleanupCache_entries (k : string) (e : CacheEntry) (st : ProxyPool) :
  useCache (cfg st) = true ->
  (In (k, e) (proxyCache (cleanupCache now st)) <->
   In (k, e) (proxyCache st) /\ now (tick st) - timestamp e <= cacheExpiry (cfg st)).
Proof.
  intros Hu. unfold cleanupCache, read_clock. rewrite Hu. simpl.
  rewrite filter_In. simpl.
  rewrite negb_true_iff, Z.gtb_ltb, Z.ltb_ge. reflexivity.
Qed.

Lemma cleanupCache_drops_older (k : string) (e : CacheEntry) (st : ProxyPool) :
  useCache (cfg st) = true ->
  now (tick st) - timestamp e > cacheExpiry (cfg st) ->
  ~ In (k, e) (proxyCache (cleanupCache now st)).
Proof.
  intros Hu Hold Hin. apply cleanupCache_entries in Hin as [_ H]; [lia|exact Hu].
Qed.

Lemma cleanupCache_keeps_at_ttl (k : string) (e : CacheEntry) (st : ProxyPool) :
  useCache (cfg st) = true ->
  In (k, e) (proxyCache st) ->
  now (tick st) - timestamp e = cacheExpiry (cfg st) ->
  In (k, e) (proxyCache (cleanupCache now st)).
Proof.
  intros Hu Hin Hage. apply cleanupCache_entries; [exact Hu|]. split; [exact Hin|lia].
Qed.

End Expiry.

(** C4 at an entry whose age equals the time-to-live: recorded at 0 by an
    admission, read at 3600000 with [cacheExpiry] 3600000.  The lookup in
    [testProxiesConcurrently] no longer uses the cached verdict (the
    candidate is probed, and the probe's [false] is the answer), yet
    [cleanupCache] run at that same time leaves the entry in the cache. *)
Theorem C4_sweep_keeps_entry_at_ttl :
  proxyCache pool_with_aged_entry
    = [("1.1.1.1:8080", {| valid := true; timestamp := 0 |})]
  /\ clock_at_ttl (tick pool_with_aged_entry) - 0 = cacheExpiry (cfg pool_with_aged_entry)
  /\ fst (test_one clock_at_ttl dead_probe "1.1.1.1:8080" pool_with_aged_entry)
     = ("1.1.1.1:8080", JBool false)
  /\ proxyCache (cleanupCache clock_at_ttl pool_with_aged_entry)
     = [("1.1.1.1:8080", {| valid := true; timestamp := 0 |})].
Proof. vm_compute. repeat split. Qed.

(** ** Pool size across a cycle *)

Section Bound.

Variable now : nat -> Z.
Variable listing : nat -> Z -> AxiosResult.
Variable probe : nat -> string -> AxiosResult.

Lemma only_tick_size (st st' : ProxyPool) : only_tick st st' -> size st' = size st.
Proof. intros [_ [H _]]. unfold size. now rewrite H. Qed.

(** Entered below the target, [addValidProxies] stops at the target. *)
Lemma addValidProxies_below_target (results : list TestResult) (st : ProxyPool) :
  size st < targetCount (cfg st) ->
  size (addValidProxies now results st) <= targetCount (cfg st).
Proof.
  revert st. induction results as [|[proxy result] rest IH]; intros st Hlt; simpl.
  - lia.
  - destruct (truthy result).
    + destruct (ip_port proxy) as [i p].
      destruct (negb (is_member i p st)); [|now apply IH].
      match goal with
      | |- size (if _ then ?s else _) <= _ =>
          assert (Hs : size s = size st + 1 /\ cfg s = cfg st)
            by (destruct (useCache (cfg st)); unfold size; simpl;
                rewrite length_app; simpl; (split; [lia|reflexivity]));
          remember s as s1 eqn:Es; clear Es; destruct Hs as [Hs Hc]
      end.
      destruct (size s1 >=? targetCount (cfg s1)) eqn:Hge; [lia|].
      rewrite Z.geb_leb in Hge. apply Z.leb_gt in Hge.
      rewrite <- Hc. now apply IH.
    + destruct (useCache (cfg st)); [|now apply IH].
      apply (IH (cache_set now proxy false st)). exact Hlt.
Qed.

(** Entered at or above the target, it still admits the first valid new
    candidate before it tests the size: the pool grows by at most one. *)
Lemma addValidProxies_at_most_one_over (results : list TestResult) (st : ProxyPool) :
  size (addValidProxies now results st) <= Z.max (targetCount (cfg st)) (size st + 1).
Proof.
  revert st. induction results as [|[proxy result] rest IH]; intros st; simpl.
  - lia.
  - destruct (truthy result).
    + destruct (ip_port proxy) as [i p].
      destruct (negb (is_member i p st)); [|now apply IH].
      match goal with
      | |- size (if _ then ?s else _) <= _ =>
          assert (Hs : size s = size st + 1 /\ cfg s = cfg st)
            by (destruct (useCache (cfg st)); unfold size; simpl;
                rewrite length_app; simpl; (split; [lia|reflexivity]));
          remember s as s1 eqn:Es; clear Es; destruct Hs as [Hs Hc]
      end.
      destruct (size s1 >=? targetCount (cfg s1)) eqn:Hge; [lia|].
      rewrite Z.geb_leb in Hge. apply Z.leb_gt in Hge.
      pose proof (addValidProxies_below_target rest s1 Hge) as Hb.
      rewrite Hc in Hb. lia.
    + destruct (useCache (cfg st)); [|now apply IH].
      apply (IH (cache_set now proxy false st)).
Qed.

Lemma ticked_or_added_bound (st st' : ProxyPool) :
  ticked_or_added now probe st st' ->
  size st' <= Z.max (targetCount (cfg st)) (size st + 1)
  /\ (size st < targetCount (cfg st) -> size st' <= targetCount (cfg st)).
Proof.
  intros [H|[proxies [st0 [H0 ->]]]].
  - rewrite (only_tick_size _ _ H). split; lia.
  - pose proof (testProxiesConcurrently_only_tick now probe proxies st0) as H1.
    pose proof (only_tick_trans _ _ _ H0 H1) as H2.
    pose proof (only_tick_size _ _ H2) as Hs.
    assert (Hc : cfg (snd (testProxiesConcurrently now probe proxies st0)) = cfg st)
      by (destruct H2 as [-> _]; reflexivity).
    split.
    + rewrite <- Hs, <- Hc. apply addValidProxies_at_most_one_over.
    + intros Hlt. rewrite <- Hc. apply addValidProxies_below_target.
      rewrite Hs, Hc. exact Hlt.
Qed.

Lemma refill_loop_bound (fuel attempts : nat) (st : ProxyPool) (bound : Z) :
  targetCount (cfg st) <= bound -> size st <= bound ->
  size (snd (refill_loop now listing probe fuel attempts st)) <= bound.
Proof.
  revert attempts st. induction fuel as [|fuel IH]; intros attempts st Ht Hs; simpl.
  - exact Hs.
  - destruct (size st <? targetCount (cfg st)) eqn:Hlt; simpl; [|exact Hs].
    destruct (Z.of_nat attempts <? maxRefillAttempts (cfg st)); [|exact Hs].
    apply Z.ltb_lt in Hlt.
    pose proof (proj2 (ticked_or_added_bound _ _ (refill_attempt_shape now listing probe st))
                  Hlt) as Hb.
    pose proof (refill_attempt_keeps_control now listing probe st) as [Hc _].
    destruct (refill_attempt now listing probe st) as [[| |] st1]; simpl in *;
      try lia.
    apply IH; [rewrite Hc; exact Ht | lia].
Qed.

Lemma refill_cycle_bound (st : ProxyPool) :
  size (snd (refill_cycle now listing probe st))
    <= Z.max (targetCount (cfg st)) (size st + 1)
  /\ (size st < targetCount (cfg st) ->
      size (snd (refill_cycle now listing probe st)) <= targetCount (cfg st)).
Proof.
  unfold refill_cycle.
  match goal with
  | |- context [refill_loop now listing probe ?f 0 ?s] =>
      assert (H1 : cfg s = cfg st
                   /\ size s <= Z.max (targetCount (cfg st)) (size st + 1)
                   /\ (size st < targetCount (cfg st) -> size s <= targetCount (cfg st)));
      [|pose proof (refill_loop_bound f 0 s) as H2;
        destruct (refill_loop now listing probe f 0 s) as [[step attempts] st2]]
  end.
  - destruct (useCache (cfg st) && (0 <? Z.of_nat (List.length (proxyCache st))))%bool.
    + pose proof (tryUsingCachedProxies_shape now probe
                    (targetCount (cfg st) - size st) st) as Hsh.
      split; [apply (ticked_or_added_keeps_control now probe _ _ Hsh)|].
      now apply ticked_or_added_bound.
    + split; [reflexivity|]. split; lia.
  - destruct H1 as [Hc [Ha Hb]]. simpl in *. rewrite Hc in H2.
    change (size (set_refilling false st2)) with (size st2).
    split.
    + apply H2; lia.
    + intros Hlt. apply H2; [lia|now apply Hb].
Qed.

(** A cycle entered strictly below the target ends at or below it; a
    cycle entered at the target can end one above it, never more. *)
Lemma refillProxies_bound (st : ProxyPool) :
  size (snd (refillProxies now listing probe st))
    <= Z.max (targetCount (cfg st)) (size st + 1)
  /\ (size st < targetCount (cfg st) ->
      size (snd (refillProxies now listing probe st)) <= targetCount (cfg st)).
Proof.
  unfold refillProxies. destruct (isRefilling st).
  - simpl. split; lia.
  - apply (refill_cycle_bound (set_refilling true st)).
Qed.

(** When the cache-first pass hands only members to the validator, it
    admits nothing; a cycle entered at or above the target then leaves
    the members alone.  The overshoot needs a fresh valid cache entry
    whose endpoint is not a member. *)
Lemma In_firstn_skipn {A : Type} (n : nat) (l : list A) (x : A) :
  In x (firstn n l) \/ In x (skipn n l) -> In x l.
Proof. intros H. rewrite <- (firstn_skipn n l). now apply in_or_app. Qed.

Lemma test_batch_keys (batch : list string) (st : ProxyPool) (r : TestResult) :
  In r (fst (test_batch now probe batch st)) -> In (fst r) batch.
Proof.
  revert st. induction batch as [|proxy rest IH]; intros st; simpl; [tauto|].
  assert (Hk : fst (fst (test_one now probe proxy st)) = proxy).
  { unfold test_one, probe_one, read_clock.
    destruct (useCache (cfg st)); [|reflexivity].
    destruct (map_get proxy (proxyCache st)); [|reflexivity].
    now destruct (now (tick st) - timestamp c <? cacheExpiry (cfg (advance st))). }
  destruct (test_one now probe proxy st) as [r1 st1].
  specialize (IH st1). destruct (test_batch now probe rest st1) as [rs st2].
  simpl in *. intros [<-|Hin]; [now left|right; now apply IH].
Qed.

Lemma test_chunks_keys (fuel : nat) (needed : Z) (todo : list string)
    (results : list TestResult) (st : ProxyPool) (r : TestResult) :
  In r (fst (test_chunks now probe fuel needed todo results st)) ->
  In r results \/ In (fst r) todo.
Proof.
  revert todo results st. induction fuel as [|fuel IH]; intros todo results st; simpl.
  - now left.
  - destruct todo as [|p ps]; [now left|].
    pose proof (test_batch_keys (firstn (chunk_size (cfg st)) (p :: ps)) st r) as Hb.
    destruct (test_batch now probe (firstn (chunk_size (cfg st)) (p :: ps)) st)
      as [batchResults st1].
    simpl in Hb.
    assert (Hacc : In r (results ++ batchResults)%list ->
                   In r results \/ In (fst r) (p :: ps)).
    { intros H. apply in_app_or in H as [H|H]; [now left|].
      right. apply (In_firstn_skipn (chunk_size (cfg st))). left. now apply Hb. }
    destruct (successCount (results ++ batchResults) >=? needed); [exact Hacc|].
    intros H. apply IH in H as [H|H]; [now apply Hacc|].
    right. apply (In_firstn_skipn (chunk_size (cfg st))). now right.
Qed.

Lemma refill_cycle_no_overshoot (st : ProxyPool) :
  size st >= targetCount (cfg st) ->
  (forall k, In k (cached_candidates now st) ->
     is_member (fst (ip_port k)) (snd (ip_port k)) st = true) ->
  availableProxies (snd (refill_cycle now listing probe st)) = availableProxies st.
Proof.
  intros Hge Hmem. unfold refill_cycle.
  match goal with
  | |- context [refill_loop now listing probe ?f 0 ?s] =>
      assert (H1 : availableProxies s = availableProxies st /\ cfg s = cfg st)
  end.
  { unfold cached_candidates in Hmem.
    destruct (useCache (cfg st) && (0 <? Z.of_nat (List.length (proxyCache st))))%bool;
      [|now split].
    split; [|apply (ticked_or_added_keeps_control now probe),
               tryUsingCachedProxies_shape].
    unfold tryUsingCachedProxies, read_clock. simpl cfg. simpl proxyCache.
    destruct (collect_cached (cfg st) (now (tick st)) (targetCount (cfg st) - size st)
                (proxyCache st) []) as [|k ks] eqn:Hcc; [reflexivity|].
    pose proof (testProxiesConcurrently_only_tick now probe (k :: ks) (advance st))
      as [_ [Hap _]].
    pose proof (fun r => test_chunks_keys (List.length (k :: ks))
                           (targetCount (cfg (advance st)) - size (advance st))
                           (k :: ks) [] (advance st) r) as Hkeys.
    fold (testProxiesConcurrently now probe (k :: ks) (advance st)) in Hkeys.
    destruct (testProxiesConcurrently now probe (k :: ks) (advance st)) as [results st2].
    simpl in Hap, Hkeys.
    rewrite addValidProxies_members_only; [exact Hap|].
    intros r Hr. rewrite Hap. destruct (Hkeys r Hr) as [[]|Hin].
    apply Hmem. exact Hin. }
  destruct H1 as [Hap Hc].
  match goal with
  | |- context [refill_loop now listing probe ?f 0 ?s] =>
      assert (H2 : refill_loop now listing probe f 0 s = ((Continue, 0%nat), s));
      [|rewrite H2; exact Hap]
  end.
  match goal with
  | |- refill_loop now listing probe ?f 0 ?s = _ =>
      destruct f; [reflexivity|]; cbn [refill_loop];
      replace (size s <? targetCount (cfg s)) with false; [reflexivity|]
  end.
  symmetry. apply Z.ltb_ge. unfold size in *. rewrite Hap, Hc. lia.
Qed.

End Bound.

(** C9 on a run of whole method calls from a fresh manager with target
    size 2.  After the first cycle, a removal and the cycle it starts, the
    manager is idle with exactly 2 members, and the cache still holds a
    valid entry under the raw string "10.0.0.1:3128:user" ([removeProxy]
    invalidated the key "10.0.0.1:3128").  Once the older entries have
    expired, the next cycle takes that entry from the cache although
    nothing is needed, admits it before the size is tested, and completes
    with 3 members. *)
Theorem C9_refill_overshoots_target :
  isRefilling overshoot_idle = false
  /\ size overshoot_idle = 2
  /\ targetCount (cfg overshoot_idle) = 2
  /\ map key_of (availableProxies overshoot_idle)
     = [("2.2.2.2", Some "8080"); ("3.3.3.3", Some "8080")]
  /\ cached_candidates overshoot_clock overshoot_idle = ["10.0.0.1:3128:user"]
  /\ size (snd overshoot_next_cycle) = 3
  /\ isRefilling (snd overshoot_next_cycle) = false
  /\ checkAndRefill overshoot_clock overshoot_listing good_probe overshoot_idle
     = snd overshoot_next_cycle.
Proof. vm_compute. repeat split. Qed.

(** The interleaved variant: the second pass of the first cycle reaches
    the target, and the next cycle ends one above it. *)
Example overshoot_after_removal_during_sleep :
  fst (refill_attempt frozen_clock interleaved_listing good_probe
         (set_refilling true (new_ProxyPool overshoot_config))) = Continue
  /\ isRefilling interleaved_idle = false
  /\ size interleaved_idle = 2
  /\ size (snd (refillProxies frozen_clock interleaved_listing good_probe
                  interleaved_idle)) = 3.
Proof. vm_compute. repeat split. Qed.

(** * Further properties of the methods *)

(** ** Raw strings, endpoints and cache keys *)

Lemma split_colon_cons (s : string) : exists h t, split_colon s = h :: t.
Proof.
  destruct (split_colon s) as [|h t] eqn:H; [now apply split_colon_nonempty in H|eauto].
Qed.

(** Joining the pieces with [':'] gives the string back. *)
Lemma split_colon_join (s : string) : String.concat ":" (split_colon s) = s.
Proof.
  induction s as [|c s IH]; [reflexivity|].
  cbn [split_colon]. destruct (Ascii.eqb c ":") eqn:Hc.
  - apply Ascii.eqb_eq in Hc. subst c.
    destruct (split_colon_cons s) as [h [t Hs]]. rewrite Hs in *.
    change (String.concat ":" ("" :: h :: t))
      with ("" ++ ":" ++ String.concat ":" (h :: t))%string.
    now rewrite IH.
  - destruct (split_colon_cons s) as [h [t Hs]]. rewrite Hs in *.
    destruct t as [|h' t].
    + simpl in *. now rewrite IH.
    + change (String.concat ":" (String c h :: h' :: t))
        with (String c (h ++ ":" ++ String.concat ":" (h' :: t)))%string.
      change (String.concat ":" (h :: h' :: t))
        with (h ++ ":" ++ String.concat ":" (h' :: t))%string in IH.
      now rewrite IH.
Qed.

Lemma split_colon_no_colon (s : string) : no_colon s = true -> split_colon s = [s].
Proof.
  induction s as [|c s IH]; [reflexivity|]. simpl.
  intros H. apply andb_true_iff in H as [Hc Hs]. apply negb_true_iff in Hc.
  rewrite Hc, (IH Hs). reflexivity.
Qed.

Lemma split_colon_host (h rest : string) :
  no_colon h = true ->
  split_colon (h ++ ":" ++ rest) = h :: split_colon rest.
Proof.
  induction h as [|c h IH]; [reflexivity|]. simpl.
  intros H. apply andb_true_iff in H as [Hc Hh]. apply negb_true_iff in Hc.
  rewrite Hc. simpl in IH. now rewrite (IH Hh).
Qed.

Lemma split_colon_pieces (s : string) : Forall (fun x => no_colon x = true) (split_colon s).
Proof.
  induction s as [|c s IH]; [repeat constructor|].
  cbn [split_colon]. destruct (Ascii.eqb c ":") eqn:Hc.
  - constructor; [reflexivity|exact IH].
  - destruct (split_colon_cons s) as [h [t Hs]]. rewrite Hs in *.
    inversion IH; subst. constructor; [|assumption].
    simpl. now rewrite Hc.
Qed.

(** X1: [host:port] parses to its two fields; the parsed fields never contain
    a colon; and the key [removeProxy] writes, [`${ip}:${port}`], is the
    raw string exactly when the raw string has two fields. *)
Theorem endpoint_round_trip :
  (forall h p : string,
      no_colon h = true -> no_colon p = true ->
      ip_port (h ++ ":" ++ p) = (h, Some p))
  /\ (forall raw i p,
         ip_port raw = (i, Some p) ->
         no_colon i = true /\ no_colon p = true
         /\ ((i ++ ":" ++ p)%string = raw <-> List.length (split_colon raw) = 2%nat)).
Proof.
  split.
  - intros h p Hh Hp. unfold ip_port.
    now rewrite (split_colon_host h p Hh), (split_colon_no_colon p Hp).
  - intros raw i p H. unfold ip_port in H.
    pose proof (split_colon_join raw) as Hj.
    pose proof (split_colon_pieces raw) as Hp.
    destruct (split_colon raw) as [|h [|q t]] eqn:Hs; try discriminate.
    inversion H; subst h q. clear H.
    assert (Hi : no_colon i = true) by (now inversion Hp).
    assert (Hq : no_colon p = true)
      by (inversion Hp as [|? ? _ Hp']; now inversion Hp').
    split; [exact Hi|]. split; [exact Hq|].
    split.
    + intros Heq. destruct t as [|r t]; [reflexivity|exfalso].
      rewrite <- Heq in Hs.
      rewrite (split_colon_host i p Hi), (split_colon_no_colon p Hq) in Hs.
      discriminate.
    + intros Hlen. destruct t; [|discriminate]. exact Hj.
Qed.

Lemma endpoint_round_trip_witness :
  ip_port "10.0.0.1:3128" = ("10.0.0.1", Some "3128")
  /\ ("10.0.0.1" ++ ":" ++ "3128")%string <> "10.0.0.1:3128:user".
Proof.
  destruct endpoint_round_trip as [Hparse Hkey]. split.
  - apply (Hparse "10.0.0.1" "3128"); reflexivity.
  - intros Heq.
    destruct (Hkey "10.0.0.1:3128:user" "10.0.0.1" "3128" eq_refl) as [_ [_ [Hlen _]]].
    specialize (Hlen Heq). vm_compute in Hlen. discriminate.
Defined.

(** ** The constructor, beyond falsy values *)

(** X2: [new ProxyPool(null)] throws, every other argument constructs; a truthy
    option is stored as supplied, whatever its type; [useCache] is stored
    as supplied unless it is [undefined], which gives [true]. *)
Theorem constructor_accepts_and_keeps (options : JsVal) :
  (Options.constructor options = None <-> options = JNull)
  /\ (forall props r,
         options = JObj props -> Options.constructor options = Some r ->
         (forall n : Options.Name,
             truthy (assoc (Options.key n) props) = true ->
             Options.field n r = assoc (Options.key n) props)
         /\ Options.useCache r
            = match assoc "useCache" props with
              | JUndefined => JBool true
              | v => v
              end).
Proof.
  split.
  - split; [|intros ->; reflexivity].
    destruct options; simpl; try discriminate. reflexivity.
  - intros props r -> Hc. injection Hc as <-. split.
    + intros n Ht. destruct n; simpl in *; unfold jsOr; now rewrite Ht.
    + simpl. now destruct (assoc "useCache" props).
Qed.

Lemma constructor_accepts_and_keeps_witness :
  exists r,
    Options.constructor
      (JObj [("targetCount", JStr "many"); ("useCache", JNull)]) = Some r
    /\ Options.targetCount r = JStr "many"
    /\ Options.useCache r = JNull.
Proof.
  eexists. split; [reflexivity|].
  destruct (constructor_accepts_and_keeps
              (JObj [("targetCount", JStr "many"); ("useCache", JNull)])) as [_ H].
  destruct (H _ _ eq_refl eq_refl) as [Hk Hu]. split.
  - exact (Hk Options.TargetCount eq_refl).
  - exact Hu.
Defined.

(** ** The provider client, case by case *)

(** X3: The client hands back [response.data.data.proxies], unchecked,
    exactly when the body is truthy, its [code] is the number 200, its
    [data] is neither [undefined] nor [null], and [data.count] converts
    to a string for the log line; in every other case it hands back
    [[]].  A [count] converts unless it is an object with an own
    [toString] key or an array that holds one.  The HTTP status plays no
    part. *)
Theorem provider_result_cases (r : AxiosResult) :
  match r with
  | Rejected => getProxiesFromProvider r = JArr []
  | Response status data =>
      (forall status', getProxiesFromProvider (Response status' data)
                       = getProxiesFromProvider r)
      /\ match getProp data "code", getProp data "data" with
         | Some (JNum 200), Some inner =>
             match getProp inner "count", getProp inner "proxies" with
             | Some count, Some proxies =>
                 truthy data = true
                 /\ getProxiesFromProvider r
                    = (if toString_throws count then JArr [] else proxies)
                 /\ match count with
                    | JObj props =>
                        toString_throws count = true <-> In "toString" (map fst props)
                    | JArr items =>
                        toString_throws count = true
                        <-> exists x, In x items /\ toString_throws x = true
                    | _ => toString_throws count = false
                    end
             | _, _ => getProxiesFromProvider r = JArr []
             end
         | _, _ => getProxiesFromProvider r = JArr []
         end
  end.
Proof.
  destruct r as [status data|]; [|reflexivity].
  split; [reflexivity|].
  assert (Hconv : forall count,
             match count with
             | JObj props =>
                 toString_throws count = true <-> In "toString" (map fst props)
             | JArr items =>
                 toString_throws count = true
                 <-> exists x, In x items /\ toString_throws x = true
             | _ => toString_throws count = false
             end).
  { intros [| |b|z| |s|items|props]; try reflexivity.
    - simpl. apply existsb_exists.
    - simpl. rewrite existsb_exists. split.
      + intros [[k v] [Hin Hk]]. apply String.eqb_eq in Hk. simpl in Hk. subst k.
        apply in_map_iff. now exists ("toString", v).
      + intros Hin. apply in_map_iff in Hin. destruct Hin as [[k v] [Hk Hin]].
        simpl in Hk. subst k. exists ("toString", v). split; [exact Hin|].
        apply String.eqb_refl. }
  assert (Hinner : forall inner,
             match getProp inner "count", getProp inner "proxies" with
             | Some _, Some _ => True
             | None, None => True
             | _, _ => False
             end).
  { intros [| |b|z| |s|items|props]; exact I. }
  assert (Hbody : forall inner,
             getProp data "code" = Some (JNum 200) ->
             getProp data "data" = Some inner ->
             truthy data = true ->
             match getProp inner "count", getProp inner "proxies" with
             | Some count, Some proxies =>
                 truthy data = true
                 /\ getProxiesFromProvider (Response status data)
                    = (if toString_throws count then JArr [] else proxies)
                 /\ match count with
                    | JObj props =>
                        toString_throws count = true <-> In "toString" (map fst props)
                    | JArr items =>
                        toString_throws count = true
                        <-> exists x, In x items /\ toString_throws x = true
                    | _ => toString_throws count = false
                    end
             | _, _ => getProxiesFromProvider (Response status data) = JArr []
             end).
  { intros inner Hc Hd Ht. unfold getProxiesFromProvider. rewrite Ht, Hc, Hd.
    cbn [strictEqNum]. change (200 =? 200) with true. cbv iota.
    specialize (Hinner inner).
    destruct (getProp inner "count") as [count|];
      destruct (getProp inner "proxies") as [proxies|]; try contradiction;
      [|reflexivity].
    split; [reflexivity|]. split; [reflexivity|]. apply Hconv. }
  destruct data as [| |b|z| |s|items|props];
    try (simpl; try match goal with
                    | |- context [if ?c then _ else _] => destruct c
                    end; reflexivity).
  (* an object body *)
  destruct (getProp (JObj props) "code") as [code|] eqn:Hc; [|discriminate].
  destruct code as [| |b|z| |s|items|props'];
    try (unfold getProxiesFromProvider; rewrite Hc; reflexivity).
  destruct (Z.eq_dec z 200) as [->|Hz].
  - destruct (getProp (JObj props) "data") as [inner|] eqn:Hd; [|discriminate].
    now apply Hbody.
  - assert (Hne : getProxiesFromProvider (Response status (JObj props)) = JArr []).
    { unfold getProxiesFromProvider. rewrite Hc. cbn [strictEqNum truthy].
      apply Z.eqb_neq in Hz. now rewrite Hz. }
    destruct z as [|q|q]; try exact Hne.
    repeat (destruct q as [q|q|]; try exact Hne).
    contradiction.
Qed.

(** ** Admission *)

Lemma map_get_map_set (k k' : string) (e : CacheEntry) (m : Cache) :
  map_get k (map_set k' e m) = if (k =? k')%string then Some e else map_get k m.
Proof.
  induction m as [|[k0 e0] m IH]; simpl.
  - destruct (k =? k')%string; reflexivity.
  - destruct (k' =? k0)%string eqn:H0; simpl.
    + apply String.eqb_eq in H0. subst k0.
      destruct (k =? k')%string; reflexivity.
    + destruct (k =? k0)%string eqn:H1.
      * apply String.eqb_eq in H1. subst k0.
        rewrite String.eqb_sym in H0. now rewrite H0.
      * exact IH.
Qed.

Section AddingMore.

Variable now : nat -> Z.

Lemma stems_from_later (c : Config) (r : TestResult) (rest : list TestResult)
    (m : ProxyObj) :
  stems_from c rest m -> stems_from c (r :: rest) m.
Proof.
  intros [proxy [result [Hin H]]]. exists proxy, result. split; [now right|exact H].
Qed.

Lemma addValidProxies_more (results : list TestResult) (st : ProxyPool) :
  exists more,
    availableProxies (addValidProxies now results st) = (availableProxies st ++ more)%list
    /\ forall m, In m more ->
         ~ In (key_of m) (map key_of (availableProxies st))
         /\ stems_from (cfg st) results m.
Proof.
  revert st. induction results as [|[proxy result] rest IH]; intros st.
  - exists []. split; [now rewrite app_nil_r|intros m []].
  - assert (Hsame : forall s, cfg s = cfg st -> availableProxies s = availableProxies st ->
              exists more,
                availableProxies (addValidProxies now rest s)
                  = (availableProxies st ++ more)%list
                /\ forall m, In m more ->
                     ~ In (key_of m) (map key_of (availableProxies st))
                     /\ stems_from (cfg st) ((proxy, result) :: rest) m).
    { intros s Hc Hap. destruct (IH s) as [more [H1 H2]]. exists more.
      rewrite Hap, Hc in *. split; [exact H1|].
      intros m Hin. destruct (H2 m Hin) as [Hk Hs].
      split; [exact Hk|now apply stems_from_later]. }
    cbn [addValidProxies]. destruct (truthy result) eqn:Ht.
    + destruct (ip_port proxy) as [i p] eqn:Hip.
      destruct (negb (is_member i p st)) eqn:Hm; [|now apply Hsame].
      apply negb_true_iff in Hm. unfold read_clock. cbn beta iota.
      set (obj := {| ip := i; port := p; protocol := proxyProtocol (cfg st);
                     full := (proxyProtocol (cfg st) ++ "://" ++ proxy)%string;
                     addedAt := now (tick st) |}).
      assert (Hobj : ~ In (key_of obj) (map key_of (availableProxies st))
                     /\ stems_from (cfg st) ((proxy, result) :: rest) obj).
      { split.
        - intros Hin. apply existsb_same_endpoint in Hin.
          unfold is_member in Hm. unfold key_of in Hin. simpl in Hin. congruence.
        - exists proxy, result. repeat split; trivial; [now left|].
          unfold key_of. simpl. now rewrite Hip. }
      match goal with
      | |- context [if _ then ?s else addValidProxies now rest ?s] =>
          assert (Hs : availableProxies s = (availableProxies st ++ [obj])%list
                       /\ cfg s = cfg st)
            by (simpl; destruct (useCache (cfg st)); split; reflexivity);
          remember s as s1 eqn:Es; clear Es; destruct Hs as [Hs Hc]
      end.
      destruct (size s1 >=? targetCount (cfg s1)).
      * exists [obj]. split; [exact Hs|]. intros m [<-|[]]. exact Hobj.
      * destruct (IH s1) as [more [H1 H2]].
        exists (obj :: more). split.
        -- rewrite H1, Hs, <- app_assoc. reflexivity.
        -- intros m [<-|Hin]; [exact Hobj|].
           destruct (H2 m Hin) as [Hk Hst]. rewrite Hc in Hst. split.
           ++ intros Hk'. apply Hk. rewrite Hs, map_app. apply in_or_app. now left.
           ++ now apply stems_from_later.
    + destruct (useCache (cfg st)); [|now apply Hsame].
      apply (Hsame (cache_set now proxy false st)); reflexivity.
Qed.

(** X4: What [addValidProxies] does to the member list: it appends, and
    each appended member comes from a result that tested truthy and
    whose endpoint was not a member before. *)
Theorem addValidProxies_appends (results : list TestResult) (st : ProxyPool) :
  exists more,
    availableProxies (addValidProxies now results st) = (availableProxies st ++ more)%list
    /\ forall m, In m more ->
         ~ In (key_of m) (map key_of (availableProxies st))
         /\ stems_from (cfg st) results m.
Proof. apply addValidProxies_more. Qed.

Lemma addValidProxies_extends (results : list TestResult) (st : ProxyPool) :
  extends (availableProxies st) (availableProxies (addValidProxies now results st)).
Proof. destruct (addValidProxies_more results st) as [more [H _]]. now exists more. Qed.

(** X5: The verdicts [addValidProxies] writes are the ones it was handed: a
    cache entry that is new or changed afterwards belongs to one of the
    results and says what that result said.  Without [useCache] the cache
    is not written at all. *)
Theorem addValidProxies_records_verdicts (results : list TestResult) (st : ProxyPool) :
  (forall k e,
      map_get k (proxyCache (addValidProxies now results st)) = Some e ->
      map_get k (proxyCache st) = Some e
      \/ exists result, In (k, result) results /\ valid e = truthy result)
  /\ (useCache (cfg st) = false ->
      proxyCache (addValidProxies now results st) = proxyCache st).
Proof.
  revert st. induction results as [|[proxy result] rest IH]; intros st.
  - split; [intros k e H; now left|reflexivity].
  - assert (Hskip : forall s, cfg s = cfg st -> proxyCache s = proxyCache st ->
              (forall k e,
                  map_get k (proxyCache (addValidProxies now rest s)) = Some e ->
                  map_get k (proxyCache st) = Some e
                  \/ exists result0, In (k, result0) ((proxy, result) :: rest)
                                     /\ valid e = truthy result0)
              /\ (useCache (cfg st) = false ->
                  proxyCache (addValidProxies now rest s) = proxyCache st)).
    { intros s Hc Hp. destruct (IH s) as [H1 H2]. rewrite Hc, Hp in *. split; [|exact H2].
      intros k e H. destruct (H1 k e H) as [Ho|[r0 [Hin Hv]]]; [now left|].
      right. exists r0. split; [now right|exact Hv]. }
    assert (Hset : forall s v, cfg s = cfg st -> proxyCache s = proxyCache st ->
              truthy result = v -> useCache (cfg st) = true ->
              (forall k e,
                  map_get k (proxyCache (addValidProxies now rest (cache_set now proxy v s)))
                    = Some e ->
                  map_get k (proxyCache st) = Some e
                  \/ exists result0, In (k, result0) ((proxy, result) :: rest)
                                     /\ valid e = truthy result0)
              /\ (useCache (cfg st) = false ->
                  proxyCache (addValidProxies now rest (cache_set now proxy v s))
                    = proxyCache st)).
    { intros s v Hc Hp Hv Hu. split; [|congruence].
      intros k e H. destruct (IH (cache_set now proxy v s)) as [H1 _].
      destruct (H1 k e H) as [Ho|[r0 [Hin Hv0]]].
      - unfold cache_set, read_clock in Ho. simpl in Ho.
        rewrite map_get_map_set, Hp in Ho.
        destruct (k =? proxy)%string eqn:Hk; [|now left].
        apply String.eqb_eq in Hk. subst k. inversion Ho; subst e.
        right. exists result. split; [now left|simpl; now rewrite Hv].
      - right. exists r0. split; [now right|exact Hv0]. }
    cbn [addValidProxies]. destruct (truthy result) eqn:Ht.
    + destruct (ip_port proxy) as [i p].
      destruct (negb (is_member i p st)); [|now apply Hskip].
      unfold read_clock. cbn beta iota.
      set (s2 := set_proxies _ (advance st)).
      assert (Hc2 : cfg s2 = cfg st) by reflexivity.
      assert (Hp2 : proxyCache s2 = proxyCache st) by reflexivity.
      rewrite Hc2. destruct (useCache (cfg st)) eqn:Hu.
      * destruct (size (cache_set now proxy true s2)
                  >=? targetCount (cfg (cache_set now proxy true s2))).
        -- split; [|discriminate]. intros k e H.
           unfold cache_set, read_clock in H. simpl in H.
           rewrite map_get_map_set in H.
           destruct (k =? proxy)%string eqn:Hk; [|now left].
           apply String.eqb_eq in Hk. subst k. inversion H; subst e.
           right. exists result. split; [now left|simpl; now rewrite Ht].
        -- now apply (Hset s2 true).
      * destruct (size s2 >=? targetCount (cfg s2)).
        -- split; [intros k e H; now left|reflexivity].
        -- now apply Hskip.
    + destruct (useCache (cfg st)) eqn:Hu.
      * now apply (Hset st false).
      * now apply Hskip.
Qed.

End AddingMore.

Section AddingBound.

Variable now : nat -> Z.

(** X6: [addValidProxies] and the target: entered below the target it stops
    at the target; entered at or above it, it can still grow the pool,
    by one member at most. *)
Theorem addValidProxies_respects_target (results : list TestResult) (st : ProxyPool) :
  (size st < targetCount (cfg st) ->
     size (addValidProxies now results st) <= targetCount (cfg st))
  /\ size (addValidProxies now results st) <= Z.max (targetCount (cfg st)) (size st + 1)
  /\ size st <= size (addValidProxies now results st).
Proof.
  split; [apply addValidProxies_below_target|].
  split; [apply addValidProxies_at_most_one_over|].
  unfold size. apply Nat2Z.inj_le, addValidProxies_length_mono.
Qed.

End AddingBound.

(** Five valid candidates offered to a fresh pool with target 3. *)
Lemma addValidProxies_respects_target_witness :
  size (addValidProxies frozen_clock
          [("1.1.1.1:1", JBool true); ("2.2.2.2:2", JBool true);
           ("3.3.3.3:3", JBool true); ("4.4.4.4:4", JBool true);
           ("5.5.5.5:5", JBool true)]
          (new_ProxyPool (with_target 3 default_config))) <= 3.
Proof.
  apply (proj1 (addValidProxies_respects_target frozen_clock _
                  (new_ProxyPool (with_target 3 default_config)))).
  reflexivity.
Defined.

(** ** Filtering the provider's batch *)

Lemma filter_strings_of_strings (st : ProxyPool) (l : list string) :
  filter_strings st (map JStr l)
  = Some (filter (fun s => negb (is_member (fst (ip_port s)) (snd (ip_port s)) st)) l).
Proof.
  induction l as [|s l IH]; [reflexivity|].
  simpl. rewrite IH. now destruct (ip_port s) as [i p].
Qed.

Lemma filter_strings_fails (st : ProxyPool) (items : list JsVal) :
  filter_strings st items = None \/ exists l, items = map JStr l.
Proof.
  induction items as [|v items IH]; [right; now exists []|].
  destruct v; try (now left).
  simpl. destruct (ip_port s) as [i p].
  destruct IH as [->|[l ->]]; [now left|].
  right. now exists (s :: l).
Qed.

(** X7: [filterExistingProxies] on an array of strings returns, in order, the
    strings whose endpoint is not a member; on anything else (a non-array,
    or an array holding a non-string) it throws. *)
Theorem filterExistingProxies_cases (proxies : JsVal) (st : ProxyPool) :
  (forall l, proxies = JArr (map JStr l) ->
     filterExistingProxies proxies st
     = Some (filter (fun s => negb (existsb (same_endpoint (fst (ip_port s))
                                              (snd (ip_port s)))
                                     (availableProxies st))) l))
  /\ ((forall l, proxies <> JArr (map JStr l)) ->
      filterExistingProxies proxies st = None).
Proof.
  split.
  - intros l ->. apply filter_strings_of_strings.
  - intros Hno. destruct proxies; try reflexivity. simpl.
    destruct (filter_strings_fails st items) as [H|[l ->]]; [exact H|].
    now destruct (Hno l).
Qed.

Lemma filterExistingProxies_cases_witness :
  filterExistingProxies (envelope_proxies ["9.9.9.9:1"; "2.2.2.2:8080"; "8.8.8.8:2"])
    pool_of_three = Some ["9.9.9.9:1"; "8.8.8.8:2"]
  /\ filterExistingProxies (JArr [JStr "9.9.9.9:1"; JNum 7]) pool_of_three = None.
Proof.
  destruct (filterExistingProxies_cases
              (envelope_proxies ["9.9.9.9:1"; "2.2.2.2:8080"; "8.8.8.8:2"])
              pool_of_three) as [H1 _].
  destruct (filterExistingProxies_cases (JArr [JStr "9.9.9.9:1"; JNum 7])
              pool_of_three) as [_ H2].
  split.
  - rewrite (H1 _ eq_refl). reflexivity.
  - apply H2. intros [|a [|b [|c l]]]; simpl; try discriminate.
Defined.

(** ** Concurrent testing *)

Lemma firstn_plus {A : Type} (n m : nat) (l : list A) :
  firstn (n + m) l = (firstn n l ++ firstn m (skipn n l))%list.
Proof.
  revert l. induction n as [|n IH]; intros l; [reflexivity|].
  destruct l as [|x l]; simpl; [now destruct m|]. now rewrite IH.
Qed.

Lemma chunk_size_at_most_20 (c : Config) : (chunk_size c <= 20)%nat.
Proof.
  unfold chunk_size.
  pose proof (Pos.le_min_r (concurrentRequests c * 2) 20) as H.
  apply Pos2Nat.inj_le in H. exact H.
Qed.

Lemma successCount_app (a b : list TestResult) :
  successCount (a ++ b) = successCount a + successCount b.
Proof. unfold successCount. rewrite filter_app, length_app. apply Nat2Z.inj_add. Qed.

Lemma successCount_nonneg (a : list TestResult) : 0 <= successCount a.
Proof. unfold successCount. lia. Qed.

Section Testing.

Variable now : nat -> Z.
Variable probe : nat -> string -> AxiosResult.

Lemma test_one_names (proxy : string) (st : ProxyPool) :
  fst (fst (test_one now probe proxy st)) = proxy.
Proof.
  unfold test_one, probe_one, read_clock.
  destruct (useCache (cfg st)); [|reflexivity].
  destruct (map_get proxy (proxyCache st)); [|reflexivity].
  now destruct (now (tick st) - timestamp c <? cacheExpiry (cfg (advance st))).
Qed.

Lemma test_batch_names (batch : list string) (st : ProxyPool) :
  map fst (fst (test_batch now probe batch st)) = batch.
Proof.
  revert st. induction batch as [|proxy rest IH]; intros st; [reflexivity|].
  simpl. pose proof (test_one_names proxy st) as H1.
  destruct (test_one now probe proxy st) as [r st1].
  specialize (IH st1). destruct (test_batch now probe rest st1) as [rs st2].
  simpl in *. now rewrite H1, IH.
Qed.

Lemma test_batch_app (l1 l2 : list string) (st : ProxyPool) :
  test_batch now probe (l1 ++ l2) st
  = ((fst (test_batch now probe l1 st)
      ++ fst (test_batch now probe l2 (snd (test_batch now probe l1 st))))%list,
     snd (test_batch now probe l2 (snd (test_batch now probe l1 st)))).
Proof.
  revert st. induction l1 as [|p l1 IH]; intros st.
  - simpl. now destruct (test_batch now probe l2 st).
  - simpl. destruct (test_one now probe p st) as [r st1]. rewrite IH.
    destruct (test_batch now probe l1 st1) as [rs st2]. simpl.
    now destruct (test_batch now probe l2 st2).
Qed.

(** The chunk loop tests a prefix of the candidates, one after the other. *)
Lemma test_chunks_prefix (fuel : nat) (needed : Z) (todo : list string)
    (results : list TestResult) (st : ProxyPool) :
  (List.length todo <= fuel)%nat ->
  exists k,
    test_chunks now probe fuel needed todo results st
    = ((results ++ fst (test_batch now probe (firstn k todo) st))%list,
       snd (test_batch now probe (firstn k todo) st)).
Proof.
  revert todo results st. induction fuel as [|fuel IH]; intros todo results st Hlen.
  - destruct todo; [|simpl in Hlen; lia]. exists 0%nat. simpl. now rewrite app_nil_r.
  - destruct todo as [|p ps]; [exists 0%nat; simpl; now rewrite app_nil_r|].
    cbn [test_chunks]. set (c := chunk_size (cfg st)).
    destruct (test_batch now probe (firstn c (p :: ps)) st) as [br st1] eqn:Hb.
    destruct (successCount (results ++ br) >=? needed).
    + exists c. now rewrite Hb.
    + destruct (IH (skipn c (p :: ps)) (results ++ br)%list st1) as [k Hk].
      { rewrite length_skipn. pose proof (chunk_size_positive (cfg st)).
        fold c in H. simpl in Hlen. cbn [List.length]. lia. }
      exists (c + k)%nat. rewrite Hk, firstn_plus, test_batch_app, Hb.
      cbn [fst snd]. now rewrite app_assoc.
Qed.

(** Without an early stop the chunk loop is the plain left-to-right test
    of all candidates. *)
Lemma test_chunks_all (fuel : nat) (needed : Z) (todo : list string)
    (results : list TestResult) (st : ProxyPool) :
  (List.length todo <= fuel)%nat ->
  successCount results + successCount (fst (test_batch now probe todo st)) < needed ->
  test_chunks now probe fuel needed todo results st
  = ((results ++ fst (test_batch now probe todo st))%list,
     snd (test_batch now probe todo st)).
Proof.
  revert todo results st. induction fuel as [|fuel IH]; intros todo results st Hlen Hlt.
  - destruct todo; [|simpl in Hlen; lia]. simpl. now rewrite app_nil_r.
  - destruct todo as [|p ps]; [simpl; now rewrite app_nil_r|].
    cbn [test_chunks]. set (c := chunk_size (cfg st)).
    rewrite <- (firstn_skipn c (p :: ps)) in Hlt at 1.
    rewrite test_batch_app in Hlt. cbn [fst] in Hlt.
    rewrite successCount_app in Hlt.
    destruct (test_batch now probe (firstn c (p :: ps)) st) as [br st1] eqn:Hb.
    cbn [fst snd] in Hlt.
    pose proof (successCount_nonneg
                  (fst (test_batch now probe (skipn c (p :: ps)) st1))) as Hnn.
    replace (successCount (results ++ br) >=? needed) with false
      by (symmetry; rewrite Z.geb_leb; apply Z.leb_gt; rewrite successCount_app; lia).
    rewrite IH.
    + rewrite <- (firstn_skipn c (p :: ps)) at 3 4.
      rewrite test_batch_app, Hb. cbn [fst snd]. now rewrite app_assoc.
    + rewrite length_skipn. pose proof (chunk_size_positive (cfg st)).
      fold c in H. simpl in Hlen. cbn [List.length]. lia.
    + rewrite successCount_app. lia.
Qed.

(** X8: [testProxiesConcurrently] returns the verdicts of a prefix of its
    candidates, in order, and changes nothing in the manager.  When the
    pool is already at or above the target it still tests the first chunk
    (at most 20 candidates) and no more.  When fewer candidates test valid
    than are still needed, it tests them all. *)
Theorem testProxiesConcurrently_tests_a_prefix (proxies : list string) (st : ProxyPool) :
  (exists k,
      testProxiesConcurrently now probe proxies st
        = test_batch now probe (firstn k proxies) st
      /\ map fst (fst (testProxiesConcurrently now probe proxies st)) = firstn k proxies)
  /\ only_tick st (snd (testProxiesConcurrently now probe proxies st))
  /\ (targetCount (cfg st) - size st <= 0 ->
      testProxiesConcurrently now probe proxies st
        = test_batch now probe (firstn (chunk_size (cfg st)) proxies) st
      /\ (List.length (fst (testProxiesConcurrently now probe proxies st)) <= 20)%nat)
  /\ (successCount (fst (test_batch now probe proxies st)) < targetCount (cfg st) - size st ->
      testProxiesConcurrently now probe proxies st = test_batch now probe proxies st).
Proof.
  split; [|split; [apply testProxiesConcurrently_only_tick|split]].
  - unfold testProxiesConcurrently.
    destruct (test_chunks_prefix (List.length proxies) (targetCount (cfg st) - size st)
                proxies [] st (le_n _)) as [k Hk].
    exists k. rewrite Hk. cbn [app fst].
    split; [now destruct (test_batch now probe (firstn k proxies) st)|].
    apply test_batch_names.
  - intros Hfull.
    assert (Heq : testProxiesConcurrently now probe proxies st
                  = test_batch now probe (firstn (chunk_size (cfg st)) proxies) st).
    { unfold testProxiesConcurrently.
      destruct proxies as [|p ps]; [now rewrite firstn_nil|].
      cbn [List.length test_chunks].
      destruct (test_batch now probe (firstn (chunk_size (cfg st)) (p :: ps)) st)
        as [br st1].
      cbn [app]. pose proof (successCount_nonneg br).
      replace (successCount br >=? targetCount (cfg st) - size st) with true
        by (symmetry; rewrite Z.geb_leb; apply Z.leb_le; lia).
      reflexivity. }
    split; [exact Heq|]. rewrite Heq.
    pose proof (test_batch_names (firstn (chunk_size (cfg st)) proxies) st) as Hn.
    apply (f_equal (@List.length string)) in Hn.
    rewrite length_map, length_firstn in Hn.
    pose proof (chunk_size_at_most_20 (cfg st)). unfold TestResult in *. lia.
  - intros Hfew. unfold testProxiesConcurrently.
    rewrite (test_chunks_all (List.length proxies) _ proxies [] st (le_n _)).
    + now destruct (test_batch now probe proxies st).
    + unfold successCount at 1. simpl. exact Hfew.
Qed.

(** A verdict that is in the cache and younger than the time-to-live is
    the answer: no request is sent, whatever the probe would have said. *)
Lemma test_one_fresh_hit (proxy : string) (e : CacheEntry) (st : ProxyPool) :
  useCache (cfg st) = true ->
  map_get proxy (proxyCache st) = Some e ->
  now (tick st) - timestamp e < cacheExpiry (cfg st) ->
  test_one now probe proxy st = ((proxy, JBool (valid e)), advance st).
Proof.
  intros Hu Hg Hf. unfold test_one, read_clock. rewrite Hu, Hg. simpl cfg.
  now replace (now (tick st) - timestamp e <? cacheExpiry (cfg st)) with true
    by (symmetry; apply Z.ltb_lt; exact Hf).
Qed.

End Testing.

Lemma testProxiesConcurrently_tests_a_prefix_witness :
  List.length (fst (testProxiesConcurrently frozen_clock good_probe
                      ["4.4.4.4:1"; "5.5.5.5:2"]
                      (addValidProxies frozen_clock three_valid
                         (new_ProxyPool (with_target 3 default_config)))))
  = 2%nat.
Proof.
  destruct (testProxiesConcurrently_tests_a_prefix frozen_clock good_probe
              ["4.4.4.4:1"; "5.5.5.5:2"]
              (addValidProxies frozen_clock three_valid
                 (new_ProxyPool (with_target 3 default_config))))
    as [_ [_ [Hfull _]]].
  destruct Hfull as [Heq _]; [vm_compute; discriminate|].
  rewrite Heq. reflexivity.
Defined.

(** ** The cache-first pass *)

Lemma collect_cached_firstn (c : Config) (t needed : Z) (entries : Cache)
    (acc : list string) :
  collect_cached c t needed entries acc
  = (acc ++ firstn (Z.to_nat (Z.max 1 (needed - Z.of_nat (List.length acc))))
              (map fst (filter (fun kv => (t - timestamp (snd kv) <? cacheExpiry c)
                                          && valid (snd kv))%bool entries)))%list.
Proof.
  revert acc. induction entries as [|[k e] rest IH]; intros acc.
  - simpl. now rewrite firstn_nil, app_nil_r.
  - cbn [collect_cached filter snd].
    destruct ((t - timestamp e <? cacheExpiry c) && valid e)%bool; [|apply IH].
    cbn [map fst].
    destruct (Z.of_nat (List.length (acc ++ [k])%list) >=? needed) eqn:Hge.
    + rewrite Z.geb_leb in Hge. apply Z.leb_le in Hge.
      rewrite length_app in Hge. simpl in Hge.
      replace (Z.to_nat (Z.max 1 (needed - Z.of_nat (List.length acc)))) with 1%nat by lia.
      reflexivity.
    + rewrite Z.geb_leb in Hge. apply Z.leb_gt in Hge.
      rewrite IH. rewrite length_app in *. simpl in Hge. cbn [List.length].
      replace (Z.to_nat (Z.max 1 (needed - Z.of_nat (List.length acc))))
        with (S (Z.to_nat (Z.max 1 (needed - Z.of_nat (List.length acc + 1))))) by lia.
      cbn [firstn]. now rewrite <- app_assoc.
Qed.

(** X9: The cache-first pass offers the validator the keys of the first
    entries, in insertion order, that are valid and younger than the
    time-to-live: as many as members are missing, and one even when no
    member is missing. *)
Theorem cache_first_pass_offers (now : nat -> Z) (st : ProxyPool) :
  useCache (cfg st) = true -> proxyCache st <> [] ->
  cached_candidates now st
  = firstn (Z.to_nat (Z.max 1 (targetCount (cfg st) - size st)))
      (map fst (filter (fun kv => (now (tick st) - timestamp (snd kv) <? cacheExpiry (cfg st))
                                  && valid (snd kv))%bool (proxyCache st))).
Proof.
  intros Hu Hne. unfold cached_candidates. rewrite Hu.
  destruct (proxyCache st) as [|kv m] eqn:Hc; [contradiction|].
  replace (0 <? Z.of_nat (List.length (kv :: m))) with true
    by (symmetry; apply Z.ltb_lt; simpl; lia).
  cbn [andb]. rewrite collect_cached_firstn. cbn [app List.length].
  now rewrite Z.sub_0_r.
Qed.

(** A full pool of three with three valid entries: one key is offered. *)
Lemma cache_first_pass_offers_witness :
  cached_candidates frozen_clock
    (addValidProxies frozen_clock three_valid
       (new_ProxyPool (with_target 3 default_config)))
  = ["1.1.1.1:8080"].
Proof.
  rewrite (cache_first_pass_offers frozen_clock
             (addValidProxies frozen_clock three_valid
                (new_ProxyPool (with_target 3 default_config))));
    [reflexivity | reflexivity | vm_compute; discriminate].
Defined.

(** ** Handing out and removing members *)

Lemma find_of_existsb {A : Type} (f : A -> bool) (l : list A) :
  existsb f l = true -> exists x, find f l = Some x.
Proof.
  induction l as [|a l IH]; simpl; [discriminate|].
  destruct (f a); [eauto|exact IH].
Qed.

Section HandingOut.

Variable now : nat -> Z.
Variable listing : nat -> Z -> AxiosResult.
Variable probe : nat -> string -> AxiosResult.

(** X10: In no state a fresh manager can reach does [getProxy] on a non-empty
    pool answer [null] or [undefined]: it answers the member under the
    cursor. *)
Theorem getProxy_answers_a_member (c : Config) (ops : list Op) :
  availableProxies (run now listing probe ops (new_ProxyPool c)) <> [] ->
  exists m,
    fst (getProxy (run now listing probe ops (new_ProxyPool c))) = RProxy m
    /\ In m (availableProxies (run now listing probe ops (new_ProxyPool c))).
Proof.
  intros Hne.
  pose proof (reachable_cursor_inside now listing probe c ops Hne) as Hlt.
  set (st := run now listing probe ops (new_ProxyPool c)) in *.
  destruct (nth_error (availableProxies st) (currentIndex st)) as [m|] eqn:Hm;
    [|apply nth_error_None in Hm; lia].
  exists m. split; [|now apply nth_error_In in Hm].
  unfold getProxy. rewrite Hm. now destruct (availableProxies st).
Qed.

Lemma removeProxy_member_cache (i : string) (p : PortArg) (st : ProxyPool) :
  useCache (cfg st) = true ->
  is_member i (Some (port_toString p)) st = true ->
  proxyCache (snd (removeProxy now i p st))
  = map_set (i ++ ":" ++ port_toString p)%string
      {| valid := false; timestamp := now (tick st) |} (proxyCache st)
  /\ tick (snd (removeProxy now i p st)) = S (tick st)
  /\ cfg (snd (removeProxy now i p st)) = cfg st.
Proof.
  intros Hu Hm. unfold removeProxy. cbn [snd].
  destruct (find_of_existsb _ _ Hm) as [x ->]. rewrite Hu.
  unfold checkAndRefill_start.
  repeat match goal with
         | |- context [if ?c then _ else _] => destruct c
         end; repeat split.
Qed.

(** A member with a port that [getProxy] just handed out is removed by
    its own fields. *)
Lemma remove_handed_out_member (st : ProxyPool) (m : ProxyObj) (s : string) :
  unique_endpoints st ->
  fst (getProxy st) = RProxy m ->
  port m = Some s ->
  let after := removeProxy now (ip m) (PortStr s) (snd (getProxy st)) in
  fst after = true
  /\ ~ In m (availableProxies (snd after))
  /\ S (List.length (availableProxies (snd after))) = List.length (availableProxies st).
Proof.
  intros Hu Hget Hport after. subst after.
  assert (Hin : In m (availableProxies st)).
  { unfold getProxy in Hget. destruct (availableProxies st) as [|x l] eqn:Hl;
      [discriminate|]. rewrite <- Hl in *. cbn [fst] in Hget.
    destruct (nth_error (availableProxies st) (currentIndex st)) eqn:Hn;
      [|discriminate].
    inversion Hget; subst. now apply nth_error_In in Hn. }
  assert (Hmem : existsb (same_endpoint (ip m) (Some s))
                   (availableProxies (snd (getProxy st))) = true).
  { rewrite (proj1 (getProxy_frame st)). apply existsb_exists. exists m.
    split; [exact Hin|]. apply same_endpoint_key. unfold key_of. now rewrite Hport. }
  pose proof (filter_out_endpoint_length (ip m) (Some s)
                (availableProxies (snd (getProxy st)))) as Hlen.
  rewrite (proj1 (getProxy_frame st)) in Hlen, Hmem.
  specialize (Hlen Hu Hmem).
  rewrite removeProxy_removed, removeProxy_proxies, (proj1 (getProxy_frame st)).
  unfold without. cbn [port_toString]. split; [apply Nat.ltb_lt; lia|].
  split; [|exact Hlen].
  intros Hin'. apply filter_In in Hin' as [_ Hneg].
  assert (same_endpoint (ip m) (Some s) m = true)
    by (apply same_endpoint_key; unfold key_of; now rewrite Hport).
  rewrite H in Hneg. discriminate.
Qed.

(** X11: Removing the member [getProxy] just handed out by its own fields,
    [removeProxy(proxy.ip, proxy.port)], on a pool without duplicates.
    When the member has a port the call returns [true], the member is
    gone and the pool is one smaller.  When it has none (it was admitted
    from a raw string without a colon) the call throws at
    [port.toString()] and the member stays. *)
Theorem getProxy_then_removeProxy (st : ProxyPool) (m : ProxyObj) :
  unique_endpoints st ->
  fst (getProxy st) = RProxy m ->
  match removeProxy_of now m (snd (getProxy st)) with
  | Some after =>
      port m <> None
      /\ fst after = true
      /\ ~ In m (availableProxies (snd after))
      /\ S (List.length (availableProxies (snd after))) = List.length (availableProxies st)
  | None =>
      port m = None /\ In m (availableProxies (snd (getProxy st)))
  end.
Proof.
  intros Hu Hget. unfold removeProxy_of.
  destruct (port m) as [s|] eqn:Hport.
  - split; [discriminate|]. exact (remove_handed_out_member st m s Hu Hget Hport).
  - split; [reflexivity|].
    rewrite (proj1 (getProxy_frame st)).
    unfold getProxy in Hget. destruct (availableProxies st) as [|x l] eqn:Hl;
      [discriminate|]. rewrite <- Hl in *. cbn [fst] in Hget.
    destruct (nth_error (availableProxies st) (currentIndex st)) eqn:Hn;
      [|discriminate].
    inversion Hget; subst. now apply nth_error_In in Hn.
Qed.

(** X12: Removing the same endpoint a second time returns [false] and changes
    no member; and a removal never touches a member with another
    endpoint. *)
Theorem removeProxy_twice (i : string) (p : PortArg) (st : ProxyPool) :
  let once := snd (removeProxy now i p st) in
  fst (removeProxy now i p once) = false
  /\ availableProxies (snd (removeProxy now i p once)) = availableProxies once
  /\ (forall m, In m (availableProxies st) ->
        key_of m <> (i, Some (port_toString p)) -> In m (availableProxies once)).
Proof.
  intros once. subst once.
  assert (Hgone : existsb (same_endpoint i (Some (port_toString p)))
                    (availableProxies (snd (removeProxy now i p st))) = false).
  { rewrite removeProxy_proxies.
    destruct (existsb _ _) eqn:Hex; [|reflexivity].
    apply existsb_exists in Hex as [m [Hin Hs]].
    apply filter_In in Hin as [_ Hneg]. rewrite Hs in Hneg. discriminate. }
  pose proof (filter_out_absent_endpoint _ _ _ Hgone) as Hsame.
  fold (without i p (availableProxies (snd (removeProxy now i p st)))) in Hsame.
  rewrite removeProxy_removed, (removeProxy_proxies now i p (snd (removeProxy now i p st))), Hsame.
  split; [apply Nat.ltb_irrefl|]. split; [reflexivity|].
  intros m Hin Hk. rewrite removeProxy_proxies. apply filter_In. split; [exact Hin|].
  destruct (same_endpoint i (Some (port_toString p)) m) eqn:Hs; [|reflexivity].
  apply same_endpoint_key in Hs. contradiction.
Qed.

(** X13: A removed member is remembered as invalid under the key [ip:port]:
    while that entry is younger than the time-to-live, a candidate
    offered under this key is answered [false] from the cache, without a
    request, and is therefore not admitted. *)
Theorem removed_member_is_remembered (i : string) (p : PortArg) (st : ProxyPool) :
  useCache (cfg st) = true ->
  is_member i (Some (port_toString p)) st = true ->
  let st' := snd (removeProxy now i p st) in
  let key := (i ++ ":" ++ port_toString p)%string in
  now (tick st') - now (tick st) < cacheExpiry (cfg st) ->
  test_one now probe key st' = ((key, JBool false), advance st')
  /\ availableProxies (addValidProxies now [fst (test_one now probe key st')] (snd (test_one now probe key st')))
     = availableProxies st'.
Proof.
  intros Hu Hm st' key Hfresh. subst st' key.
  destruct (removeProxy_member_cache i p st Hu Hm) as [Hc [Ht Hcfg]].
  assert (Hhit : test_one now probe (i ++ ":" ++ port_toString p)%string
                   (snd (removeProxy now i p st))
                 = ((i ++ ":" ++ port_toString p, JBool false)%string,
                    advance (snd (removeProxy now i p st)))).
  { apply (test_one_fresh_hit now probe _
             {| valid := false; timestamp := now (tick st) |}).
    - congruence.
    - rewrite Hc, map_get_map_set, String.eqb_refl. reflexivity.
    - cbn [timestamp]. rewrite Hcfg. exact Hfresh. }
  split; [exact Hhit|]. rewrite Hhit. cbn [fst snd addValidProxies truthy].
  match goal with
  | |- context [if ?c then _ else _] => destruct c
  end; reflexivity.
Qed.

End HandingOut.

Lemma getProxy_answers_a_member_witness :
  exists m,
    fst (getProxy (run frozen_clock listing_of_three good_probe
                     [OpRefill; OpNext; OpRemove "3.3.3.3" (PortNum 8080)]
                     (new_ProxyPool (with_target 3 default_config)))) = RProxy m.
Proof.
  destruct (getProxy_answers_a_member frozen_clock listing_of_three good_probe
              (with_target 3 default_config)
              [OpRefill; OpNext; OpRemove "3.3.3.3" (PortNum 8080)]) as [m [Hm _]];
    [vm_compute; discriminate|].
  exists m. exact Hm.
Defined.

Lemma getProxy_then_removeProxy_witness :
  match removeProxy_of frozen_clock
          {| ip := "2.2.2.2"; port := Some "8080"; protocol := "http";
             full := "http://2.2.2.2:8080"; addedAt := 0 |}
          (snd (getProxy pool_of_three_turned)) with
  | Some after => fst after = true
  | None => False
  end.
Proof.
  pose proof (getProxy_then_removeProxy frozen_clock pool_of_three_turned
                {| ip := "2.2.2.2"; port := Some "8080"; protocol := "http";
                   full := "http://2.2.2.2:8080"; addedAt := 0 |}) as H.
  cbn [removeProxy_of port] in *.
  refine (proj1 (proj2 (H _ eq_refl))).
  vm_compute. repeat constructor; simpl; intuition discriminate.
Defined.

Lemma removed_member_is_remembered_witness :
  fst (test_one frozen_clock good_probe "2.2.2.2:8080"
         (snd (removeProxy frozen_clock "2.2.2.2" (PortNum 8080) pool_of_three)))
  = ("2.2.2.2:8080", JBool false).
Proof.
  destruct (removed_member_is_remembered frozen_clock good_probe
              "2.2.2.2" (PortNum 8080) pool_of_three) as [H _];
    [reflexivity | reflexivity | reflexivity |].
  change ("2.2.2.2" ++ ":" ++ port_toString (PortNum 8080))%string
    with "2.2.2.2:8080" in H.
  now rewrite H.
Defined.

(** ** What a refill cycle can and cannot do *)

Lemma extends_refl {A : Type} (l : list A) : extends l l.
Proof. exists []. now rewrite app_nil_r. Qed.

Lemma extends_trans {A : Type} (a b c : list A) : extends a b -> extends b c -> extends a c.
Proof. intros [x ->] [y ->]. exists (x ++ y)%list. now rewrite app_assoc. Qed.

Lemma extends_In {A : Type} (a b : list A) (x : A) : extends a b -> In x a -> In x b.
Proof. intros [m ->] H. apply in_or_app. now left. Qed.

Lemma In_map_set (k k' : string) (e e' : CacheEntry) (m : Cache) :
  In (k', e') (map_set k e m) -> (k', e') = (k, e) \/ In (k', e') m.
Proof.
  induction m as [|[k0 e0] m IH]; simpl.
  - intros [H|[]]. left. congruence.
  - destruct (k =? k0)%string; simpl.
    + intros [H|H]; [left; congruence|right; now right].
    + intros [H|H]; [right; now left|].
      destruct (IH H) as [H1|H1]; [now left|right; now right].
Qed.

Lemma map_get_In (k : string) (e : CacheEntry) (m : Cache) :
  map_get k m = Some e -> In (k, e) m.
Proof.
  induction m as [|[k0 e0] m IH]; simpl; [discriminate|].
  destruct (k =? k0)%string eqn:Hk.
  - apply String.eqb_eq in Hk. subst k0. intros H. inversion H. now left.
  - intros H. right. now apply IH.
Qed.

Section CycleMore.

Variable now : nat -> Z.
Variable listing : nat -> Z -> AxiosResult.
Variable probe : nat -> string -> AxiosResult.

(** X14: A cycle only appends to the member list: no member is dropped or
    moved, the cursor stays where it was, and the pool ends at most one
    member above the larger of the target and its starting size (at or
    below the target when it started below). *)
Theorem refillProxies_only_appends (st : ProxyPool) :
  extends (availableProxies st) (availableProxies (snd (refillProxies now listing probe st)))
  /\ currentIndex (snd (refillProxies now listing probe st)) = currentIndex st
  /\ size (snd (refillProxies now listing probe st))
     <= Z.max (targetCount (cfg st)) (size st + 1)
  /\ (size st < targetCount (cfg st) ->
      size (snd (refillProxies now listing probe st)) <= targetCount (cfg st)).
Proof.
  split; [|split; [|apply refillProxies_bound]].
  - apply (refillProxies_preserves now listing probe (extends (availableProxies st)));
      [|apply extends_refl].
    intros results s Hs. eapply extends_trans; [exact Hs|].
    apply addValidProxies_extends.
  - unfold refillProxies. destruct (isRefilling st); [reflexivity|].
    apply (refill_cycle_keeps now listing probe (set_refilling true st)).
Qed.

Lemma refill_loop_full (fuel attempts : nat) (st : ProxyPool) :
  size st >= targetCount (cfg st) ->
  refill_loop now listing probe fuel attempts st = ((Continue, attempts), st).
Proof.
  intros Hge. destruct fuel; [reflexivity|]. cbn [refill_loop].
  replace (size st <? targetCount (cfg st)) with false
    by (symmetry; apply Z.ltb_ge; lia).
  reflexivity.
Qed.

Lemma cache_pass_members_only (st : ProxyPool) :
  (forall k, In k (cached_candidates now st) ->
     is_member (fst (ip_port k)) (snd (ip_port k)) st = true) ->
  let st1 :=
    if (useCache (cfg st) && (0 <? Z.of_nat (List.length (proxyCache st))))%bool
    then tryUsingCachedProxies now probe (targetCount (cfg st) - size st) st else st in
  availableProxies st1 = availableProxies st /\ cfg st1 = cfg st.
Proof.
  intros Hmem st1. subst st1. unfold cached_candidates in Hmem.
  destruct (useCache (cfg st) && (0 <? Z.of_nat (List.length (proxyCache st))))%bool;
    [|now split].
  split; [|apply (ticked_or_added_keeps_control now probe),
             tryUsingCachedProxies_shape].
  unfold tryUsingCachedProxies, read_clock. simpl cfg. simpl proxyCache.
  destruct (collect_cached (cfg st) (now (tick st)) (targetCount (cfg st) - size st)
              (proxyCache st) []) as [|k ks] eqn:Hcc; [reflexivity|].
  pose proof (testProxiesConcurrently_only_tick now probe (k :: ks) (advance st))
    as [_ [Hap _]].
  pose proof (fun r => test_chunks_keys now probe (List.length (k :: ks))
                         (targetCount (cfg (advance st)) - size (advance st))
                         (k :: ks) [] (advance st) r) as Hkeys.
  fold (testProxiesConcurrently now probe (k :: ks) (advance st)) in Hkeys.
  destruct (testProxiesConcurrently now probe (k :: ks) (advance st)) as [results st2].
  simpl in Hap, Hkeys.
  rewrite addValidProxies_members_only; [exact Hap|].
  intros r Hr. rewrite Hap. destruct (Hkeys r Hr) as [[]|Hin].
  apply Hmem. exact Hin.
Qed.

Lemma refill_on_full_pool_aux (st : ProxyPool) :
  isRefilling st = false ->
  size st >= targetCount (cfg st) ->
  (forall k, In k (cached_candidates now st) ->
     is_member (fst (ip_port k)) (snd (ip_port k)) st = true) ->
  fst (refillProxies now listing probe st) = {| attempts_made := 0; caught := false |}
  /\ availableProxies (snd (refillProxies now listing probe st)) = availableProxies st
  /\ isRefilling (snd (refillProxies now listing probe st)) = false.
Proof.
  intros Hidle Hge Hmem.
  unfold refillProxies. rewrite Hidle. unfold refill_cycle.
  destruct (cache_pass_members_only (set_refilling true st) Hmem) as [Hap Hc].
  cbv zeta in Hap, Hc. rewrite refill_loop_full.
  - cbn [fst snd]. repeat split. exact Hap.
  - rewrite Hc. unfold size in *. rewrite Hap. exact Hge.
Qed.

(** X15: On a pool that is at or above its target, when the cache-first pass
    has only members to offer (or nothing), a cycle sends no listing
    request and leaves the members as they are. *)
Theorem refillProxies_on_full_pool (st : ProxyPool) :
  isRefilling st = false ->
  size st >= targetCount (cfg st) ->
  (forall k, In k (cached_candidates now st) ->
     is_member (fst (ip_port k)) (snd (ip_port k)) st = true) ->
  fst (refillProxies now listing probe st) = {| attempts_made := 0; caught := false |}
  /\ availableProxies (snd (refillProxies now listing probe st)) = availableProxies st
  /\ isRefilling (snd (refillProxies now listing probe st)) = false.
Proof. apply refill_on_full_pool_aux. Qed.

End CycleMore.

Lemma refillProxies_on_full_pool_witness :
  availableProxies
    (snd (refillProxies frozen_clock listing_of_three good_probe
            (addValidProxies frozen_clock three_valid
               (new_ProxyPool (with_target 3 default_config)))))
  = availableProxies
      (addValidProxies frozen_clock three_valid
         (new_ProxyPool (with_target 3 default_config))).
Proof.
  apply (refillProxies_on_full_pool frozen_clock listing_of_three good_probe
           (addValidProxies frozen_clock three_valid
              (new_ProxyPool (with_target 3 default_config)))).
  - reflexivity.
  - vm_compute. discriminate.
  - intros k Hk. vm_compute in Hk. destruct Hk as [<-|[]]. reflexivity.
Defined.

Section NothingUnvouched.

Variable now : nat -> Z.
Variable listing : nat -> Z -> AxiosResult.
Variable probe : nat -> string -> AxiosResult.

Hypothesis every_probe_fails : forall t proxy, truthy (testProxy (probe t proxy)) = false.

Lemma test_one_fails (proxy : string) (st : ProxyPool) :
  no_valid_entry (proxyCache st) ->
  truthy (snd (fst (test_one now probe proxy st))) = false.
Proof.
  intros Hnv. unfold test_one, probe_one, read_clock.
  destruct (useCache (cfg st)); [|apply every_probe_fails].
  destruct (map_get proxy (proxyCache st)) as [e|] eqn:Hg; [|apply every_probe_fails].
  destruct (now (tick st) - timestamp e <? cacheExpiry (cfg (advance st)));
    [|apply every_probe_fails].
  simpl. apply (Hnv proxy e). now apply map_get_In.
Qed.

Lemma test_batch_fails (batch : list string) (st : ProxyPool) :
  no_valid_entry (proxyCache st) ->
  Forall (fun r => truthy (snd r) = false) (fst (test_batch now probe batch st)).
Proof.
  revert st. induction batch as [|proxy rest IH]; intros st Hnv; [constructor|].
  simpl. pose proof (test_one_fails proxy st Hnv) as H1.
  pose proof (test_one_only_tick now probe proxy st) as [_ [_ [_ [_ Hc]]]].
  destruct (test_one now probe proxy st) as [r st1]. simpl in H1, Hc.
  specialize (IH st1). rewrite Hc in IH. specialize (IH Hnv).
  destruct (test_batch now probe rest st1) as [rs st2]. simpl in *.
  now constructor.
Qed.

(** Results that all tested falsy admit nobody and record no entry as
    valid. *)
Lemma addValidProxies_all_failed (results : list TestResult) (st : ProxyPool) :
  Forall (fun r => truthy (snd r) = false) results ->
  no_valid_entry (proxyCache st) ->
  availableProxies (addValidProxies now results st) = availableProxies st
  /\ no_valid_entry (proxyCache (addValidProxies now results st)).
Proof.
  revert st. induction results as [|[proxy result] rest IH]; intros st Hall Hnv.
  - now split.
  - inversion Hall as [|? ? Hr Hrest]; subst. simpl in Hr.
    cbn [addValidProxies]. rewrite Hr.
    destruct (useCache (cfg st)); [|now apply IH].
    destruct (IH (cache_set now proxy false st) Hrest) as [H1 H2]; [|now split].
    intros k e Hin. unfold cache_set, read_clock in Hin. simpl in Hin.
    apply In_map_set in Hin as [Heq|Hin]; [now inversion Heq|now apply (Hnv k e)].
Qed.

Lemma tested_and_added_nothing (proxies : list string) (st : ProxyPool) :
  no_valid_entry (proxyCache st) ->
  availableProxies (addValidProxies now
                      (fst (testProxiesConcurrently now probe proxies st))
                      (snd (testProxiesConcurrently now probe proxies st)))
    = availableProxies st
  /\ no_valid_entry (proxyCache (addValidProxies now
                       (fst (testProxiesConcurrently now probe proxies st))
                       (snd (testProxiesConcurrently now probe proxies st)))).
Proof.
  intros Hnv.
  pose proof (testProxiesConcurrently_only_tick now probe proxies st)
    as [_ [Hap [_ [_ Hc]]]].
  assert (Hall : Forall (fun r => truthy (snd r) = false)
                   (fst (testProxiesConcurrently now probe proxies st))).
  { unfold testProxiesConcurrently.
    destruct (test_chunks_prefix now probe (List.length proxies)
                (targetCount (cfg st) - size st) proxies [] st (le_n _)) as [k Hk].
    rewrite Hk. cbn [fst app]. now apply test_batch_fails. }
  destruct (addValidProxies_all_failed _
              (snd (testProxiesConcurrently now probe proxies st)) Hall) as [H1 H2];
    [now rewrite Hc|].
  split; [now rewrite H1|exact H2].
Qed.

Lemma ticked_or_added_nothing (st st' : ProxyPool) :
  ticked_or_added now probe st st' ->
  no_valid_entry (proxyCache st) ->
  availableProxies st' = availableProxies st /\ no_valid_entry (proxyCache st').
Proof.
  intros [H|[proxies [st0 [H0 ->]]]] Hnv.
  - destruct H as [_ [Hap [_ [_ Hc]]]]. rewrite Hap, Hc. now split.
  - destruct H0 as [_ [Hap [_ [_ Hc]]]].
    destruct (tested_and_added_nothing proxies st0) as [H1 H2]; [now rewrite Hc|].
    split; [now rewrite H1|exact H2].
Qed.

Lemma refill_loop_nothing (fuel attempts : nat) (st : ProxyPool) :
  no_valid_entry (proxyCache st) ->
  availableProxies (snd (refill_loop now listing probe fuel attempts st))
    = availableProxies st
  /\ no_valid_entry (proxyCache (snd (refill_loop now listing probe fuel attempts st))).
Proof.
  revert attempts st. induction fuel as [|fuel IH]; intros attempts st Hnv;
    [now split|].
  cbn [refill_loop].
  destruct ((size st <? targetCount (cfg st))
            && (Z.of_nat attempts <? maxRefillAttempts (cfg st)))%bool; [|now split].
  destruct (ticked_or_added_nothing _ _ (refill_attempt_shape now listing probe st) Hnv)
    as [H1 H2].
  destruct (refill_attempt now listing probe st) as [[| |] st1]; cbn [fst snd] in *;
    try (now split).
  destruct (IH (S attempts) st1 H2) as [H3 H4]. split; [congruence|exact H4].
Qed.

(** X16: No member without a voucher: when every probe fails and the cache
    holds no valid entry, a cycle admits nobody, whatever the listing
    service offers, and the cache still holds no valid entry afterwards. *)
Theorem refillProxies_admits_nobody_unvouched (st : ProxyPool) :
  no_valid_entry (proxyCache st) ->
  availableProxies (snd (refillProxies now listing probe st)) = availableProxies st
  /\ no_valid_entry (proxyCache (snd (refillProxies now listing probe st))).
Proof.
  intros Hnv. unfold refillProxies. destruct (isRefilling st); [now split|].
  unfold refill_cycle.
  match goal with
  | |- context [refill_loop now listing probe ?f 0 ?s] =>
      assert (H1 : availableProxies s = availableProxies st
                   /\ no_valid_entry (proxyCache s));
      [|destruct (refill_loop_nothing f 0 s (proj2 H1)) as [H2 H3];
        destruct (refill_loop now listing probe f 0 s) as [[step attempts] st2]]
  end.
  - destruct (useCache (cfg (set_refilling true st))
              && (0 <? Z.of_nat (List.length (proxyCache (set_refilling true st)))))%bool;
      [|now split].
    apply (ticked_or_added_nothing (set_refilling true st));
      [apply tryUsingCachedProxies_shape|exact Hnv].
  - cbn [fst snd] in *. destruct H1 as [H1 _].
    change (availableProxies (set_refilling false st2)) with (availableProxies st2).
    change (proxyCache (set_refilling false st2)) with (proxyCache st2).
    split; [congruence|exact H3].
Qed.

End NothingUnvouched.

Lemma refillProxies_admits_nobody_unvouched_witness :
  availableProxies
    (snd (refillProxies frozen_clock listing_of_three dead_probe
            (new_ProxyPool default_config))) = [].
Proof.
  apply (refillProxies_admits_nobody_unvouched frozen_clock listing_of_three dead_probe
           (fun _ _ => eq_refl) (new_ProxyPool default_config)).
  intros k e [].
Defined.

(** ** A member without a port *)

Section Portless.

Variable now : nat -> Z.
Variable listing : nat -> Z -> AxiosResult.
Variable probe : nat -> string -> AxiosResult.

Lemma step_keeps_portless (m : ProxyObj) (op : Op) (st : ProxyPool) :
  port m = None ->
  In m (availableProxies st) -> In m (availableProxies (step now listing probe op st)).
Proof.
  intros Hp Hin.
  assert (Hadd : forall results s,
             In m (availableProxies s) ->
             In m (availableProxies (addValidProxies now results s)))
    by (intros results s Hs; eapply extends_In;
        [apply addValidProxies_extends|exact Hs]).
  destruct op; cbn [step].
  - now apply Hadd.
  - rewrite removeProxy_proxies. apply filter_In. split; [exact Hin|].
    unfold same_endpoint. rewrite Hp. simpl. now rewrite andb_false_r.
  - now rewrite (proj1 (getProxy_frame st)).
  - now apply (refillProxies_preserves now listing probe (fun l => In m l) Hadd).
  - destruct (isRefilling st); [|exact Hin].
    now apply (refill_cycle_preserves now listing probe (fun l => In m l) Hadd).
  - now apply (checkAndRefill_preserves now listing probe (fun l => In m l) Hadd).
  - now rewrite (proj1 (cleanupCache_frame now st)).
  - exact Hin.
  - exact (ticked_or_added_preserves now probe (fun l => In m l) Hadd
             _ _ (tryUsingCachedProxies_shape now probe _ st) Hin).
  - exact (ticked_or_added_preserves now probe (fun l => In m l) Hadd
             _ _ (refill_attempt_shape now listing probe st) Hin).
Qed.

(** X17: A raw string without a colon is admitted with [port] undefined, and
    such a member can never be removed again: [removeProxy] compares the
    stored port with a string, and no other method drops members. *)
Theorem portless_member_stays (raw : string) (st : ProxyPool) (ops : list Op) :
  no_colon raw = true ->
  is_member raw None st = false ->
  exists m,
    port m = None /\ ip m = raw
    /\ In m (availableProxies (addValidProxies now [(raw, JBool true)] st))
    /\ In m (availableProxies
               (run now listing probe ops (addValidProxies now [(raw, JBool true)] st))).
Proof.
  intros Hnc Hm.
  assert (Hip : ip_port raw = (raw, None))
    by (unfold ip_port; now rewrite (split_colon_no_colon raw Hnc)).
  set (m := {| ip := raw; port := None; protocol := proxyProtocol (cfg st);
               full := (proxyProtocol (cfg st) ++ "://" ++ raw)%string;
               addedAt := now (tick st) |}).
  assert (Hin : In m (availableProxies (addValidProxies now [(raw, JBool true)] st))).
  { cbn [addValidProxies truthy]. rewrite Hip, Hm. cbn [negb].
    unfold read_clock. cbn beta iota.
    match goal with
    | |- In m (availableProxies (if ?c then ?a else ?b)) =>
        assert (Ha : availableProxies a = (availableProxies st ++ [m])%list)
          by (simpl; now destruct (useCache (cfg st)));
        destruct c; rewrite Ha; apply in_or_app; right; now left
    end. }
  exists m. repeat split; [exact Hin|].
  revert Hin. generalize (addValidProxies now [(raw, JBool true)] st).
  induction ops as [|op ops IH]; intros s Hs; [exact Hs|].
  cbn [run]. apply IH. now apply step_keeps_portless.
Qed.

End Portless.

Lemma portless_member_stays_witness :
  exists m,
    ip m = "localhost"
    /\ In m (availableProxies
               (run frozen_clock dead_listing dead_probe
                  [OpRemove "localhost" (PortStr ""); OpRemove "localhost" (PortNum 0)]
                  (addValidProxies frozen_clock [("localhost", JBool true)]
                     (new_ProxyPool default_config)))).
Proof.
  destruct (portless_member_stays frozen_clock dead_listing dead_probe "localhost"
              (new_ProxyPool default_config)
              [OpRemove "localhost" (PortStr ""); OpRemove "localhost" (PortNum 0)]
              eq_refl eq_refl) as [m [_ [Hi [_ Hin]]]].
  exists m. split; assumption.
Defined.

(** ** The sweep, seen from the lookups *)

Lemma map_get_filter (f : string * CacheEntry -> bool) (k : string) (e : CacheEntry)
    (m : Cache) :
  map_get k m = Some e -> f (k, e) = true -> map_get k (filter f m) = Some e.
Proof.
  induction m as [|[k0 e0] m IH]; simpl; [discriminate|].
  destruct (k =? k0)%string eqn:Hk.
  - apply String.eqb_eq in Hk. subst k0. intros H Hf. inversion H; subst e0.
    rewrite Hf. simpl. now rewrite String.eqb_refl.
  - intros H Hf. destruct (f (k0, e0)); [simpl; rewrite Hk|]; now apply IH.
Qed.

Lemma In_map_get (k : string) (e : CacheEntry) (m : Cache) :
  NoDup (map fst m) -> In (k, e) m -> map_get k m = Some e.
Proof.
  induction m as [|[k0 e0] m IH]; simpl; [intros _ []|].
  intros Hnd [Heq|Hin].
  - inversion Heq; subst. now rewrite String.eqb_refl.
  - inversion Hnd as [|? ? Hnin Hnd']; subst.
    destruct (k =? k0)%string eqn:Hk; [|now apply IH].
    apply String.eqb_eq in Hk. subst k0. exfalso. apply Hnin.
    apply in_map_iff. now exists (k, e).
Qed.

(** X18: After [cleanupCache], a key answers with an entry exactly when it
    answered with that entry before and the entry is not older than the
    time-to-live at the sweep's clock reading; members, cursor and flag
    are untouched.  So no entry that a lookup at or after that reading
    would still use is lost. *)
Theorem cleanupCache_forgets_only_stale (now : nat -> Z) (st : ProxyPool) :
  useCache (cfg st) = true ->
  NoDup (map fst (proxyCache st)) ->
  (forall k e,
      map_get k (proxyCache (cleanupCache now st)) = Some e <->
      map_get k (proxyCache st) = Some e
      /\ now (tick st) - timestamp e <= cacheExpiry (cfg st))
  /\ (forall k e t,
         map_get k (proxyCache st) = Some e ->
         now (tick st) <= t -> t - timestamp e < cacheExpiry (cfg st) ->
         map_get k (proxyCache (cleanupCache now st)) = Some e)
  /\ availableProxies (cleanupCache now st) = availableProxies st
  /\ currentIndex (cleanupCache now st) = currentIndex st
  /\ isRefilling (cleanupCache now st) = isRefilling st.
Proof.
  intros Hu Hnd.
  assert (Hiff : forall k e,
             map_get k (proxyCache (cleanupCache now st)) = Some e <->
             map_get k (proxyCache st) = Some e
             /\ now (tick st) - timestamp e <= cacheExpiry (cfg st)).
  { intros k e. split.
    - intros H. apply map_get_In in H.
      apply (cleanupCache_entries now k e st Hu) in H as [Hin Hage].
      split; [now apply In_map_get|exact Hage].
    - intros [Hg Hage]. unfold cleanupCache, read_clock. rewrite Hu. simpl.
      apply map_get_filter; [exact Hg|]. simpl.
      rewrite negb_true_iff, Z.gtb_ltb. apply Z.ltb_ge. exact Hage. }
  split; [exact Hiff|]. split.
  - intros k e t Hg Ht Hfresh. apply Hiff. split; [exact Hg|lia].
  - destruct (cleanupCache_frame now st) as [H1 [H2 [_ H4]]]. now repeat split.
Qed.

Lemma cleanupCache_forgets_only_stale_witness :
  map_get "1.1.1.1:8080" (proxyCache (cleanupCache clock_at_ttl pool_with_aged_entry))
  = Some {| valid := true; timestamp := 0 |}.
Proof.
  destruct (cleanupCache_forgets_only_stale clock_at_ttl pool_with_aged_entry)
    as [Hiff _]; [reflexivity | vm_compute; repeat constructor; intros [] |].
  apply Hiff. split; [reflexivity|vm_compute; discriminate].
Defined.

(** ** Lifecycle *)

Section LifecycleFacts.

Variable now : nat -> Z.
Variable listing : nat -> Z -> AxiosResult.
Variable probe : nat -> string -> AxiosResult.

Lemma call_timer_consistent (c : Call) (m : Manager) :
  timer_consistent m -> timer_consistent (call now listing probe c m).
Proof.
  intros Hm. pose proof Hm as [Ht Hi]. destruct c; cbn [call]; try exact Hm.
  - unfold initialize. destruct (isInitialized m) eqn:Hinit; [exact Hm|].
    unfold timer_consistent, initialize_finish. cbn.
    rewrite Ht, (Hi eq_refl). split; [reflexivity|discriminate].
  - unfold stop. destruct (checkTimer m) as [id|] eqn:Hc; [|exact Hm].
    unfold timer_consistent. cbn. rewrite Ht. cbn.
    destruct (Nat.eq_dec id id); [|contradiction]. now split.
  - unfold timer_fires. destruct (activeTimers m); exact Hm.
Qed.

Lemma calls_timer_consistent (cs : list Call) (m : Manager) :
  timer_consistent m -> timer_consistent (calls now listing probe cs m).
Proof.
  revert m. induction cs as [|c cs IH]; intros m H; [exact H|].
  cbn [calls]. apply IH. now apply call_timer_consistent.
Qed.

Lemma call_pool_invariants (c : Call) (m : Manager) :
  unique_endpoints (pool m) /\ cursor_in_bounds (pool m) ->
  unique_endpoints (pool (call now listing probe c m))
  /\ cursor_in_bounds (pool (call now listing probe c m)).
Proof.
  intros [Hu Hc].
  assert (Hstep : forall op, unique_endpoints (step now listing probe op (pool m))
                             /\ cursor_in_bounds (step now listing probe op (pool m)))
    by (intros op; split; [now apply step_unique|now apply step_cursor]).
  destruct c; cbn [call].
  - unfold initialize. destruct (isInitialized m); [now split|]. exact (Hstep OpRefill).
  - unfold stop. destruct (checkTimer m); now split.
  - unfold timer_fires. destruct (activeTimers m); [now split|]. exact (Hstep OpCheck).
  - exact (Hstep OpNext).
  - exact (Hstep (OpRemove i p)).
  - exact (Hstep OpRefill).
  - exact (Hstep OpResume).
  - exact (Hstep OpSweep).
Qed.

(** X19: [initialize] on a new manager: the manager is initialized and idle,
    exactly one interval is scheduled and it is the stored handle, the
    pool holds no duplicate and no more members than the target; a
    second [initialize] changes nothing. *)
Theorem initialize_new_manager (c : Config) :
  let m := initialize now listing probe (new_Manager c) in
  isInitialized m = true
  /\ isRefilling (pool m) = false
  /\ checkTimer m = Some 0%nat /\ activeTimers m = [0%nat]
  /\ NoDup (map key_of (getAllProxies m))
  /\ Z.of_nat (getCount m) <= Z.max 0 (targetCount c)
  /\ initialize now listing probe m = m.
Proof.
  intros m. subst m.
  change (initialize now listing probe (new_Manager c))
    with (initialize_finish (snd (refillProxies now listing probe (new_ProxyPool c)))
            (new_Manager c)).
  remember (snd (refillProxies now listing probe (new_ProxyPool c))) as p eqn:Hp.
  unfold getAllProxies, getCount, initialize.
  cbn [initialize_finish new_Manager isInitialized pool checkTimer activeTimers nextTimer].
  split; [reflexivity|]. split; [subst p; now apply refillProxies_ends_idle|].
  split; [reflexivity|]. split; [reflexivity|]. split; [|split; [|reflexivity]].
  - subst p.
    apply (refillProxies_preserves now listing probe (fun l => NoDup (map key_of l)));
      [intros results s Hs; now apply (addValidProxies_unique now)|constructor].
  - change (Z.of_nat (List.length (availableProxies p))) with (size p). subst p.
    destruct (Z.ltb_spec 0 (targetCount c)) as [Hpos|Hneg].
    + pose proof (proj2 (refillProxies_bound now listing probe (new_ProxyPool c)) Hpos)
        as H.
      cbn [cfg new_ProxyPool] in H. lia.
    + destruct (refill_on_full_pool_aux now listing probe (new_ProxyPool c))
        as [_ [H _]]; [reflexivity | cbn; lia | |].
      * intros k Hk. unfold cached_candidates in Hk. cbn in Hk.
        rewrite andb_false_r in Hk. destruct Hk.
      * unfold size. rewrite H. cbn. lia.
Qed.

End LifecycleFacts.

Section Stopping.

Variable now : nat -> Z.
Variable listing : nat -> Z -> AxiosResult.
Variable probe : nat -> string -> AxiosResult.

Lemma new_Manager_timer_consistent (c : Config) : timer_consistent (new_Manager c).
Proof. now split. Qed.

Lemma stopped_stays_stopped (cs : list Call) (m : Manager) :
  isInitialized m = true -> checkTimer m = None -> activeTimers m = [] ->
  isInitialized (calls now listing probe cs m) = true
  /\ checkTimer (calls now listing probe cs m) = None
  /\ activeTimers (calls now listing probe cs m) = [].
Proof.
  revert m. induction cs as [|c cs IH]; intros m Hi Hc Ha; [now repeat split|].
  cbn [calls]. apply IH; destruct c; cbn [call]; trivial;
    unfold initialize, stop, timer_fires; rewrite ?Hi, ?Hc, ?Ha; trivial.
Qed.

(** X20: Calls made one after the other keep at most one interval scheduled,
    the one whose handle is stored.  [stop] cancels it and leaves the pool
    as it is; and once an initialized manager is stopped, no later call,
    [initialize] included, schedules an interval again. *)
Theorem stop_is_final (c : Config) (before after : list Call) :
  let m := calls now listing probe before (new_Manager c) in
  timer_consistent m
  /\ pool (stop m) = pool m
  /\ activeTimers (stop m) = []
  /\ (isInitialized m = true ->
      activeTimers (calls now listing probe after (stop m)) = []
      /\ checkTimer (calls now listing probe after (stop m)) = None).
Proof.
  intros m.
  assert (Hm : timer_consistent m)
    by (apply calls_timer_consistent, new_Manager_timer_consistent).
  destruct Hm as [Ht Hi].
  assert (Hstop : activeTimers (stop m) = [] /\ checkTimer (stop m) = None).
  { unfold stop. destruct (checkTimer m) as [id|] eqn:Hc; [|now split].
    cbn. rewrite Ht. cbn. destruct (Nat.eq_dec id id); [|contradiction]. now split. }
  split; [now split|]. split; [unfold stop; now destruct (checkTimer m)|].
  split; [apply Hstop|].
  intros Hinit.
  destruct (stopped_stays_stopped after (stop m)) as [_ [H1 H2]];
    [unfold stop; now destruct (checkTimer m) | apply Hstop | apply Hstop |].
  now split.
Qed.

(** X21: The tail of [initialize] schedules a new interval over whatever
    handle is stored, without cancelling it.  When two calls of
    [initialize] overlap (both pass the [isInitialized] test before either
    finishes), two intervals are scheduled, and [stop] cancels only
    the second: the first keeps firing. *)
Theorem overlapping_initialize_leaks_a_timer (m : Manager) (p1 p2 : ProxyPool) :
  let both := initialize_finish p2 (initialize_finish p1 m) in
  checkTimer both = Some (S (nextTimer m))
  /\ In (nextTimer m) (activeTimers both)
  /\ checkTimer (stop both) = None
  /\ In (nextTimer m) (activeTimers (stop both))
  /\ timer_fires now listing probe (stop both)
     = with_pool (checkAndRefill now listing probe p2) (stop both).
Proof.
  intros both. subst both. unfold stop, timer_fires, with_pool, initialize_finish.
  cbn [checkTimer activeTimers pool isInitialized nextTimer remove].
  destruct (Nat.eq_dec (S (nextTimer m)) (S (nextTimer m))) as [_|Hn]; [|contradiction].
  destruct (Nat.eq_dec (S (nextTimer m)) (nextTimer m)) as [He|_]; [lia|].
  cbn [checkTimer activeTimers pool isInitialized nextTimer].
  split; [reflexivity|]. split; [right; now left|]. split; [reflexivity|].
  split; [now left|]. reflexivity.
Qed.

End Stopping.

Lemma stop_is_final_witness :
  activeTimers
    (calls frozen_clock dead_listing dead_probe [CallInitialize; CallTimer]
       (stop (calls frozen_clock dead_listing dead_probe [CallInitialize]
                (new_Manager default_config)))) = [].
Proof.
  apply (stop_is_final frozen_clock dead_listing dead_probe default_config
           [CallInitialize] [CallInitialize; CallTimer]).
  reflexivity.
Defined.
